(** * buffer_manager.py: rolling audio/video buffers and incident recording

    A shallow embedding of [BufferManager] (python-backend/buffer_manager.py)
    and the properties of its ring buffers, ingest queues and incident
    recording registry.

    Conventions of the embedding:
    - a call of a method is a computation in the monad [M]: it takes the
      object's state and returns a result (a value or a raised exception)
      together with the state it leaves behind.  A raised exception keeps
      every mutation made before it, as in Python;
    - every lock-protected body runs atomically (the [with self.x_lock]
      blocks are critical sections), so a method call is one transition.
      The capture-side methods take no lock of the manager; they are one
      transition as well, so the steps of another thread fall before or
      after a call and never between two of its queue operations;
    - [time.time()] is an argument [now] of each call that reads the clock;
      times are integers (clock ticks): only comparison and subtraction of
      time stamps are used by the code;
    - calls that leave the process (file system, cv2, wave, json, print) are
      recorded, in order, in [io_trace]; whether such a call raises is decided
      by an oracle [env] given to each method call. *)

From stdpp Require Import base numbers list strings gmap sorting.

Open Scope Z_scope.

(** ** Samples *)

(** A numpy array, flattened.  [frame.copy()] of an immutable value is the
    value itself. *)
Definition ndarray : Type := list Z.

Definition copy (a : ndarray) : ndarray := a.

(** The byte string [audio_data.tobytes()], kept symbolically. *)
Inductive bytes : Type := tobytes (audio_data : ndarray).

(** The dict [{'frame': ..., 'timestamp': ...}]. *)
Record frame_data : Type := FrameData { frame : ndarray; frame_timestamp : Z }.

(** The dict [{'audio': ..., 'timestamp': ...}]. *)
Record chunk_data : Type := ChunkData { audio : ndarray; chunk_timestamp : Z }.

#[global] Instance frame_data_eq_dec : EqDecision frame_data.
Proof. solve_decision. Defined.

#[global] Instance chunk_data_eq_dec : EqDecision chunk_data.
Proof. solve_decision. Defined.

(** ** collections.deque with a maxlen *)

Record deque (A : Type) : Type := Deque { maxlen : nat; items : list A }.
Arguments Deque {A} _ _.
Arguments maxlen {A} _.
Arguments items {A} _.

(** [deque.append]: the item is stored on the right, and when the deque has
    grown past [maxlen] one item is popped from the left. *)
Definition deque_append {A} (d : deque A) (x : A) : deque A :=
  let l := items d ++ [x] in
  Deque (maxlen d) (if bool_decide (maxlen d < length l)%nat then tail l else l).

(** ** queue.Queue *)

Record Queue (A : Type) : Type := MkQueue { maxsize : Z; queue : list A }.
Arguments MkQueue {A} _ _.
Arguments maxsize {A} _.
Arguments queue {A} _.

Definition qsize {A} (q : Queue A) : Z := Z.of_nat (length (queue q)).

(** ** Calls that leave the process *)

Inductive VideoWriter : Type := cv2_VideoWriter (filename : string).
Inductive Wave_write : Type := wave_Wave_write (filename : string).

#[global] Instance VideoWriter_eq_dec : EqDecision VideoWriter.
Proof. solve_decision. Defined.

#[global] Instance Wave_write_eq_dec : EqDecision Wave_write.
Proof. solve_decision. Defined.

(** The dict built by [stop_incident_recording]. *)
Record metadata : Type := Metadata {
  md_incident_id : string;
  md_type : string;
  md_start_time : Z;
  md_end_time : Z;
  md_duration : Z;
  md_video_frames_count : nat;
  md_audio_chunks_count : nat;
  md_directory : string
}.

Inductive io_op : Type :=
  | mkdir (path : string)
  | VideoWriter_open (path : string) (fourcc : string) (fps : Z) (width height : Z)
  | VideoWriter_write (w : VideoWriter) (image : ndarray)
  | VideoWriter_release (w : VideoWriter)
  | wave_open (path : string)
  | Wave_setnchannels (w : Wave_write) (n : Z)
  | Wave_setsampwidth (w : Wave_write) (n : Z)
  | Wave_setframerate (w : Wave_write) (n : Z)
  | Wave_writeframes (w : Wave_write) (data : bytes)
  | Wave_close (w : Wave_write)
  | json_dump (path : string) (obj : metadata).

Inductive exn : Type :=
  | Full
  | Empty
  | ValueError
  | KeyError (key : string)
  | IOFailure (op : io_op).

Inductive log_msg : Type :=
  | msg_initialized
  | msg_already_in_progress (incident_id : string)
  | msg_started (incident_id : string)
  | msg_stopped (incident_id : string) (duration : Z)
  | msg_error_starting (e : exn)
  | msg_error_adding_frame (e : exn)
  | msg_error_adding_audio (e : exn)
  | msg_error_stopping (e : exn)
  | msg_error_video_buffer (e : exn)
  | msg_error_audio_buffer (e : exn).

(** One entry of the trace: an external call with its outcome, or a line
    printed on the standard output. *)
Inductive event : Type :=
  | Call (op : io_op) (raised : bool)
  | Stdout (msg : log_msg).

(** The oracle of a method call: [env op = true] when [op] raises. *)
Definition oracle : Type := io_op → bool.

Definition no_failure (env : oracle) : Prop := ∀ op, env op = false.

Definition quiet : oracle := λ _, false.

(** ** Results *)

Inductive result (A : Type) : Type :=
  | Ok (a : A)
  | Raise (e : exn).
Arguments Ok {A} _.
Arguments Raise {A} _.

(** [Queue.put_nowait] *)
Definition put_nowait {A} (q : Queue A) (item : A) : result (Queue A) :=
  if bool_decide (0 < maxsize q) && bool_decide (maxsize q ≤ qsize q)
  then Raise Full
  else Ok (MkQueue (maxsize q) (queue q ++ [item])).

(** [Queue.get_nowait]; [Queue.get(timeout=1)] gives the same result once
    the time-out has passed with the queue still empty. *)
Definition get_nowait {A} (q : Queue A) : result (A * Queue A) :=
  match queue q with
  | [] => Raise Empty
  | item :: rest => Ok (item, MkQueue (maxsize q) rest)
  end.

(** [deque(maxlen=n)] *)
Definition deque_new {A} (n : Z) : result (deque A) :=
  if bool_decide (n < 0) then Raise ValueError else Ok (Deque (Z.to_nat n) []).

(** ** The object *)

(** A value of [self.incident_recordings]. *)
Record recording : Type := Recording {
  type : string;
  start_time : Z;
  video_frames : list frame_data;
  audio_chunks : list chunk_data;
  directory : string;
  video_writer : option VideoWriter;
  audio_writer : option Wave_write
}.

Record BufferManager : Type := MkBufferManager {
  video_buffer_size : Z;
  audio_buffer_size : Z;
  max_incident_duration : Z;
  video_buffer : deque frame_data;
  audio_buffer : deque chunk_data;
  audio_sample_rate : Z;
  audio_channels : Z;
  incident_recordings : gmap string recording;
  is_running : bool;
  video_queue : Queue frame_data;
  audio_queue : Queue chunk_data;
  output_dir : string;
  (** not an attribute: the external calls made so far *)
  io_trace : list event
}.

Definition set_video_buffer (v : deque frame_data) (s : BufferManager) : BufferManager :=
  MkBufferManager (video_buffer_size s) (audio_buffer_size s) (max_incident_duration s)
    v (audio_buffer s) (audio_sample_rate s) (audio_channels s)
    (incident_recordings s) (is_running s) (video_queue s) (audio_queue s)
    (output_dir s) (io_trace s).

Definition set_audio_buffer (v : deque chunk_data) (s : BufferManager) : BufferManager :=
  MkBufferManager (video_buffer_size s) (audio_buffer_size s) (max_incident_duration s)
    (video_buffer s) v (audio_sample_rate s) (audio_channels s)
    (incident_recordings s) (is_running s) (video_queue s) (audio_queue s)
    (output_dir s) (io_trace s).

Definition set_incident_recordings (v : gmap string recording) (s : BufferManager)
  : BufferManager :=
  MkBufferManager (video_buffer_size s) (audio_buffer_size s) (max_incident_duration s)
    (video_buffer s) (audio_buffer s) (audio_sample_rate s) (audio_channels s)
    v (is_running s) (video_queue s) (audio_queue s)
    (output_dir s) (io_trace s).

Definition set_is_running (v : bool) (s : BufferManager) : BufferManager :=
  MkBufferManager (video_buffer_size s) (audio_buffer_size s) (max_incident_duration s)
    (video_buffer s) (audio_buffer s) (audio_sample_rate s) (audio_channels s)
    (incident_recordings s) v (video_queue s) (audio_queue s)
    (output_dir s) (io_trace s).

Definition set_video_queue (v : Queue frame_data) (s : BufferManager) : BufferManager :=
  MkBufferManager (video_buffer_size s) (audio_buffer_size s) (max_incident_duration s)
    (video_buffer s) (audio_buffer s) (audio_sample_rate s) (audio_channels s)
    (incident_recordings s) (is_running s) v (audio_queue s)
    (output_dir s) (io_trace s).

Definition set_audio_queue (v : Queue chunk_data) (s : BufferManager) : BufferManager :=
  MkBufferManager (video_buffer_size s) (audio_buffer_size s) (max_incident_duration s)
    (video_buffer s) (audio_buffer s) (audio_sample_rate s) (audio_channels s)
    (incident_recordings s) (is_running s) (video_queue s) v
    (output_dir s) (io_trace s).

Definition set_io_trace (v : list event) (s : BufferManager) : BufferManager :=
  MkBufferManager (video_buffer_size s) (audio_buffer_size s) (max_incident_duration s)
    (video_buffer s) (audio_buffer s) (audio_sample_rate s) (audio_channels s)
    (incident_recordings s) (is_running s) (video_queue s) (audio_queue s)
    (output_dir s) v.

(** ** The monad of method calls *)

Definition M (A : Type) : Type := BufferManager → result A * BufferManager.

#[global] Instance M_ret : MRet M := λ A (a : A) s, (Ok a, s).

#[global] Instance M_bind : MBind M := λ A B (f : A → M B) (m : M A) s,
  match m s with
  | (Ok a, s') => f a s'
  | (Raise e, s') => (Raise e, s')
  end.

Definition raise {A} (e : exn) : M A := λ s, (Raise e, s).

(** [try: body  except Exception as e: handler e] *)
Definition try_except {A} (body : M A) (handler : exn → M A) : M A := λ s,
  match body s with
  | (Ok a, s') => (Ok a, s')
  | (Raise e, s') => handler e s'
  end.

Definition gets {A} (f : BufferManager → A) : M A := λ s, (Ok (f s), s).

Definition modify (f : BufferManager → BufferManager) : M unit := λ s, (Ok tt, f s).

Definition lift {A} (r : result A) : M A := λ s, (r, s).

Definition print (msg : log_msg) : M unit :=
  modify (λ s, set_io_trace (io_trace s ++ [Stdout msg]) s).

(** An external call: recorded with its outcome, raising when the oracle
    says so. *)
Definition io (env : oracle) (op : io_op) : M unit := λ s,
  let s' := set_io_trace (io_trace s ++ [Call op (env op)]) s in
  if env op then (Raise (IOFailure op), s') else (Ok tt, s').

(** An external call that cannot raise with the arguments the code gives. *)
Definition io_total (op : io_op) : M unit :=
  modify (λ s, set_io_trace (io_trace s ++ [Call op false]) s).

(** Path.__truediv__ for the relative names the code joins. *)
Definition path_join (dir name : string) : string := dir +:+ "/" +:+ name.

(** ** BufferManager.__init__ *)

Definition config_get (config : gmap string Z) (key : string) (dflt : Z) : Z :=
  default dflt (config !! key).

Definition __init__ (env : oracle) (here : string) (config : gmap string Z)
  : result BufferManager :=
  let video_buffer_size := config_get config "video_buffer_size" 30 in
  let audio_buffer_size := config_get config "audio_buffer_size" 10 in
  let max_incident_duration := config_get config "max_incident_duration" 60 in
  match deque_new (video_buffer_size * 30) with
  | Raise e => Raise e
  | Ok video_buffer =>
    match deque_new (audio_buffer_size * 160) with
    | Raise e => Raise e
    | Ok audio_buffer =>
      let output_dir := path_join (path_join here "data") "recordings" in
      if env (mkdir output_dir) then Raise (IOFailure (mkdir output_dir))
      else Ok (MkBufferManager video_buffer_size audio_buffer_size
                 max_incident_duration video_buffer audio_buffer
                 16000 1 ∅ false (MkQueue 100 []) (MkQueue 100 [])
                 output_dir [Call (mkdir output_dir) false; Stdout msg_initialized])
    end
  end.

(** ** Capture side: add_video_frame, add_audio_chunk *)

Definition video_queue_put_nowait (item : frame_data) : M unit :=
  q ← gets video_queue;
  q' ← lift (put_nowait q item);
  modify (set_video_queue q').

Definition video_queue_get_nowait : M frame_data :=
  q ← gets video_queue;
  r ← lift (get_nowait q);
  modify (set_video_queue r.2);;
  mret r.1.

Definition audio_queue_put_nowait (item : chunk_data) : M unit :=
  q ← gets audio_queue;
  q' ← lift (put_nowait q item);
  modify (set_audio_queue q').

Definition audio_queue_get_nowait : M chunk_data :=
  q ← gets audio_queue;
  r ← lift (get_nowait q);
  modify (set_audio_queue r.2);;
  mret r.1.

(** [try: body  except queue.Full: handler]: any other exception goes on to
    the caller. *)
Definition try_except_Full {A} (body : M A) (handler : M A) : M A := λ s,
  match body s with
  | (Raise Full, s') => handler s'
  | r => r
  end.

Definition add_video_frame (now : Z) (frame : ndarray) (timestamp : option Z) : M unit :=
  let timestamp := default now timestamp in
  try_except_Full
    (video_queue_put_nowait (FrameData (copy frame) timestamp))
    (try_except_Full
       (video_queue_get_nowait;;
        video_queue_put_nowait (FrameData (copy frame) timestamp))
       (mret tt)).

Definition add_audio_chunk (now : Z) (audio_data : ndarray) (timestamp : option Z)
  : M unit :=
  let timestamp := default now timestamp in
  try_except_Full
    (audio_queue_put_nowait (ChunkData (copy audio_data) timestamp))
    (try_except_Full
       (audio_queue_get_nowait;;
        audio_queue_put_nowait (ChunkData (copy audio_data) timestamp))
       (mret tt)).

(** ** Writer threads: process_video_buffer, process_audio_buffer *)

(** [try: body  except queue.Empty: continue  except Exception as e: print] *)
Definition try_except_Empty (body : M unit) (msg : exn → log_msg) : M unit := λ s,
  match body s with
  | (Raise Empty, s') => (Ok tt, s')
  | (Raise e, s') => print (msg e) s'
  | r => r
  end.

(** One pass through the body of the [while self.is_running] loop. *)
Definition process_video_buffer_body : M unit :=
  try_except_Empty
    (frame_data ← video_queue_get_nowait;
     modify (λ s, set_video_buffer (deque_append (video_buffer s) frame_data) s))
    msg_error_video_buffer.

Definition process_audio_buffer_body : M unit :=
  try_except_Empty
    (audio_data ← audio_queue_get_nowait;
     modify (λ s, set_audio_buffer (deque_append (audio_buffer s) audio_data) s))
    msg_error_audio_buffer.

(** The loop, run for at most [fuel] passes. *)
Fixpoint process_video_buffer (fuel : nat) : M unit :=
  match fuel with
  | O => mret tt
  | S fuel' =>
    running ← gets is_running;
    if running : bool then process_video_buffer_body;; process_video_buffer fuel'
    else mret tt
  end.

Fixpoint process_audio_buffer (fuel : nat) : M unit :=
  match fuel with
  | O => mret tt
  | S fuel' =>
    running ← gets is_running;
    if running : bool then process_audio_buffer_body;; process_audio_buffer fuel'
    else mret tt
  end.

(** ** Windowed reads: get_video_buffer, get_audio_buffer *)

Definition get_video_buffer (now : Z) (duration : option Z) : M (list frame_data) :=
  duration ← match duration with
             | None => gets video_buffer_size
             | Some d => mret d
             end;
  let current_time := now in
  let cutoff_time := current_time - duration in
  buf ← gets video_buffer;
  let frames := filter (λ frame_data, cutoff_time ≤ frame_timestamp frame_data) (items buf) in
  mret frames.

Definition get_audio_buffer (now : Z) (duration : option Z) : M (list chunk_data) :=
  duration ← match duration with
             | None => gets audio_buffer_size
             | Some d => mret d
             end;
  let current_time := now in
  let cutoff_time := current_time - duration in
  buf ← gets audio_buffer;
  let chunks := filter (λ chunk_data, cutoff_time ≤ chunk_timestamp chunk_data) (items buf) in
  mret chunks.

(** ** Incident recording *)

(** [self.incident_recordings[incident_id][...] = ...] and the in-place
    updates of the dict [recording]: the entry is looked up (KeyError when
    absent) and replaced. *)
Definition update_recording (incident_id : string) (f : recording → recording) : M unit :=
  regs ← gets incident_recordings;
  match regs !! incident_id with
  | None => raise (KeyError incident_id)
  | Some r => modify (set_incident_recordings (<[incident_id := f r]> regs))
  end.

Definition set_video_writer (w : option VideoWriter) (r : recording) : recording :=
  Recording (type r) (start_time r) (video_frames r) (audio_chunks r) (directory r)
    w (audio_writer r).

Definition set_audio_writer (w : option Wave_write) (r : recording) : recording :=
  Recording (type r) (start_time r) (video_frames r) (audio_chunks r) (directory r)
    (video_writer r) w.

Definition append_video_frame (fd : frame_data) (r : recording) : recording :=
  Recording (type r) (start_time r) (video_frames r ++ [fd]) (audio_chunks r)
    (directory r) (video_writer r) (audio_writer r).

Definition append_audio_chunk (cd : chunk_data) (r : recording) : recording :=
  Recording (type r) (start_time r) (video_frames r) (audio_chunks r ++ [cd])
    (directory r) (video_writer r) (audio_writer r).

Definition start_incident_recording (env : oracle) (now : Z)
    (incident_id incident_type : string) : M bool :=
  try_except
    (regs ← gets incident_recordings;
     if bool_decide (is_Some (regs !! incident_id)) then
       print (msg_already_in_progress incident_id);;
       mret false
     else
       out ← gets output_dir;
       let incident_dir := path_join out incident_id in
       io env (mkdir incident_dir);;
       modify (set_incident_recordings
                 (<[incident_id := Recording incident_type now [] [] incident_dir None None]>
                    regs));;
       let video_path := path_join incident_dir (incident_id +:+ "_video.mp4") in
       let '(height, width) := (480, 640) in
       io env (VideoWriter_open video_path "mp4v" 30 width height);;
       update_recording incident_id (set_video_writer (Some (cv2_VideoWriter video_path)));;
       let audio_path := path_join incident_dir (incident_id +:+ "_audio.wav") in
       io env (wave_open audio_path);;
       update_recording incident_id (set_audio_writer (Some (wave_Wave_write audio_path)));;
       channels ← gets audio_channels;
       io_total (Wave_setnchannels (wave_Wave_write audio_path) channels);;
       io_total (Wave_setsampwidth (wave_Wave_write audio_path) 2);;
       rate ← gets audio_sample_rate;
       io_total (Wave_setframerate (wave_Wave_write audio_path) rate);;
       print (msg_started incident_id);;
       mret true)
    (λ e, print (msg_error_starting e);; mret false).

(** [if recording['video_writer']:] tests for [None]: a writer object has no
    [__bool__] or [__len__] and is always true. *)
Definition add_incident_frame (env : oracle) (now : Z) (incident_id : string)
    (frame : ndarray) : M unit :=
  try_except
    (regs ← gets incident_recordings;
     match regs !! incident_id with
     | None => mret tt
     | Some recording =>
       match video_writer recording with
       | Some w => io env (VideoWriter_write w frame)
       | None => mret tt
       end;;
       update_recording incident_id (append_video_frame (FrameData (copy frame) now))
     end)
    (λ e, print (msg_error_adding_frame e)).

Definition add_incident_audio (env : oracle) (now : Z) (incident_id : string)
    (audio_data : ndarray) : M unit :=
  try_except
    (regs ← gets incident_recordings;
     match regs !! incident_id with
     | None => mret tt
     | Some recording =>
       match audio_writer recording with
       | Some w => io env (Wave_writeframes w (tobytes audio_data))
       | None => mret tt
       end;;
       update_recording incident_id (append_audio_chunk (ChunkData (copy audio_data) now))
     end)
    (λ e, print (msg_error_adding_audio e)).

(** [open(metadata_path, 'w')] and [json.dump] are the one external call
    [json_dump]. *)
Definition stop_incident_recording (env : oracle) (now : Z) (incident_id : string)
  : M (option metadata) :=
  try_except
    (regs ← gets incident_recordings;
     match regs !! incident_id with
     | None => mret None
     | Some recording =>
       let end_time := now in
       let duration := end_time - start_time recording in
       match video_writer recording with
       | Some w => io env (VideoWriter_release w)
       | None => mret tt
       end;;
       match audio_writer recording with
       | Some w => io env (Wave_close w)
       | None => mret tt
       end;;
       let metadata :=
         Metadata incident_id (type recording) (start_time recording) end_time duration
           (length (video_frames recording)) (length (audio_chunks recording))
           (directory recording) in
       let metadata_path :=
         path_join (directory recording) (incident_id +:+ "_metadata.json") in
       io env (json_dump metadata_path metadata);;
       regs' ← gets incident_recordings;
       match regs' !! incident_id with
       | None => raise (KeyError incident_id)
       | Some _ => modify (set_incident_recordings (delete incident_id regs'))
       end;;
       print (msg_stopped incident_id duration);;
       mret (Some metadata)
     end)
    (λ e, print (msg_error_stopping e);; mret None).

(** ** BufferManager.start and BufferManager.stop *)

(** The two daemon threads started by [start] run [process_video_buffer] and
    [process_audio_buffer]; their passes are transitions of their own. *)
Definition start : M unit := modify (set_is_running true).

Fixpoint stop_all (env : oracle) (now : Z) (incident_ids : list string) : M unit :=
  match incident_ids with
  | [] => mret tt
  | incident_id :: rest =>
    stop_incident_recording env now incident_id;; stop_all env now rest
  end.

Definition stop (env : oracle) (now : Z) : M unit :=
  modify (set_is_running false);;
  regs ← gets incident_recordings;
  stop_all env now (map fst (map_to_list regs)).

(** ** What the sinks received *)

(** The images a video writer accepted, in the order of the calls. *)
Definition video_sink (w : VideoWriter) (t : list event) : list ndarray :=
  omap (λ ev, match ev with
              | Call (VideoWriter_write w' image) false =>
                if decide (w' = w) then Some image else None
              | _ => None
              end) t.

(** The byte strings a wave writer accepted, in the order of the calls. *)
Definition audio_sink (w : Wave_write) (t : list event) : list bytes :=
  omap (λ ev, match ev with
              | Call (Wave_writeframes w' data) false =>
                if decide (w' = w) then Some data else None
              | _ => None
              end) t.

(** How many times [release] was called on a video writer, whatever the
    outcome. *)
Definition release_calls (w : VideoWriter) (t : list event) : nat :=
  length (omap (λ ev, match ev with
                      | Call (VideoWriter_release w') _ =>
                        if decide (w' = w) then Some tt else None
                      | _ => None
                      end) t).

(** How many times [close] was called on a wave writer, whatever the
    outcome. *)
Definition close_calls (w : Wave_write) (t : list event) : nat :=
  length (omap (λ ev, match ev with
                      | Call (Wave_close w') _ =>
                        if decide (w' = w) then Some tt else None
                      | _ => None
                      end) t).

(** The metadata files written. *)
Definition metadata_written (t : list event) : list (string * metadata) :=
  omap (λ ev, match ev with
              | Call (json_dump path obj) false => Some (path, obj)
              | _ => None
              end) t.

(** ** Names for the paths and handles the methods compute *)

Definition incident_dir (s : BufferManager) (incident_id : string) : string :=
  path_join (output_dir s) incident_id.

Definition video_path (s : BufferManager) (incident_id : string) : string :=
  path_join (incident_dir s incident_id) (incident_id +:+ "_video.mp4").

Definition audio_path (s : BufferManager) (incident_id : string) : string :=
  path_join (incident_dir s incident_id) (incident_id +:+ "_audio.wav").

Definition metadata_path (r : recording) (incident_id : string) : string :=
  path_join (directory r) (incident_id +:+ "_metadata.json").

Definition open_video (s : BufferManager) (incident_id : string) : io_op :=
  VideoWriter_open (video_path s incident_id) "mp4v" 30 640 480.

Definition video_handle (s : BufferManager) (incident_id : string) : VideoWriter :=
  cv2_VideoWriter (video_path s incident_id).

Definition audio_handle (s : BufferManager) (incident_id : string) : Wave_write :=
  wave_Wave_write (audio_path s incident_id).

(** The external calls of a [start_incident_recording] that goes through. *)
Definition start_events (s : BufferManager) (incident_id : string) : list event :=
  [ Call (mkdir (incident_dir s incident_id)) false;
    Call (open_video s incident_id) false;
    Call (wave_open (audio_path s incident_id)) false;
    Call (Wave_setnchannels (audio_handle s incident_id) (audio_channels s)) false;
    Call (Wave_setsampwidth (audio_handle s incident_id) 2) false;
    Call (Wave_setframerate (audio_handle s incident_id) (audio_sample_rate s)) false;
    Stdout (msg_started incident_id) ].

(** The metadata [stop_incident_recording] builds from an entry. *)
Definition metadata_of (incident_id : string) (r : recording) (end_time : Z) : metadata :=
  Metadata incident_id (type r) (start_time r) end_time (end_time - start_time r)
    (length (video_frames r)) (length (audio_chunks r)) (directory r).

(** The external calls by which [stop_incident_recording] closes the
    writers an entry holds, when none of them raises. *)
Definition release_events (r : recording) : list event :=
  match video_writer r with
  | Some w => [Call (VideoWriter_release w) false]
  | None => []
  end.

Definition close_events (r : recording) : list event :=
  match audio_writer r with
  | Some w => [Call (Wave_close w) false]
  | None => []
  end.

(** The external calls of a [stop_incident_recording] that goes through. *)
Definition stop_events (incident_id : string) (r : recording) (end_time : Z) : list event :=
  release_events r ++ close_events r
  ++ [ Call (json_dump (metadata_path r incident_id) (metadata_of incident_id r end_time))
         false;
       Stdout (msg_stopped incident_id (end_time - start_time r)) ].

(** Sequences of calls *)

Fixpoint add_incident_frames (env : oracle) (incident_id : string)
    (calls : list (Z * ndarray)) : M unit :=
  match calls with
  | [] => mret tt
  | (now, frame) :: rest =>
    add_incident_frame env now incident_id frame;;
    add_incident_frames env incident_id rest
  end.

Fixpoint add_incident_audios (env : oracle) (incident_id : string)
    (calls : list (Z * ndarray)) : M unit :=
  match calls with
  | [] => mret tt
  | (now, audio_data) :: rest =>
    add_incident_audio env now incident_id audio_data;;
    add_incident_audios env incident_id rest
  end.

(** ** get_incident_recording_status *)

(** The dict returned for an id that has an entry. *)
Record recording_status : Type := RecordingStatus {
  rs_incident_id : string;
  rs_type : string;
  rs_start_time : Z;
  rs_duration : Z;
  rs_video_frames_count : nat;
  rs_audio_chunks_count : nat;
  rs_is_active : bool
}.

Definition get_incident_recording_status (now : Z) (incident_id : string)
  : M (option recording_status) :=
  regs ← gets incident_recordings;
  match regs !! incident_id with
  | None => mret None
  | Some recording =>
    let current_time := now in
    mret (Some (RecordingStatus incident_id (type recording) (start_time recording)
                  (current_time - start_time recording)
                  (length (video_frames recording)) (length (audio_chunks recording))
                  true))
  end.

(** ** get_status *)

(** The float [n / d], kept symbolically. *)
Inductive float_quotient : Type := fdiv (n : nat) (d : Z).

(** The dict returned by [get_status]; its keys 'video_buffer_size' and
    'audio_buffer_size' are the numbers of samples held. *)
Record manager_status : Type := ManagerStatus {
  ms_running : bool;
  ms_video_buffer_size : nat;
  ms_audio_buffer_size : nat;
  ms_active_recordings : nat;
  ms_video_buffer_duration : float_quotient;
  ms_audio_buffer_duration : float_quotient;
  ms_output_directory : string
}.

Definition get_status : M manager_status :=
  video_buffer_size ← gets (λ s, length (items (video_buffer s)));
  audio_buffer_size ← gets (λ s, length (items (audio_buffer s)));
  active_recordings ← gets (λ s, size (incident_recordings s));
  running ← gets is_running;
  out ← gets output_dir;
  mret (ManagerStatus running video_buffer_size audio_buffer_size active_recordings
          (fdiv video_buffer_size 30) (fdiv audio_buffer_size 160) out).

(** ** cleanup_old_recordings *)

(** An entry of [self.output_dir]: its name, whether it is a directory, and
    its modification time in seconds. *)
Record dir_entry : Type := DirEntry {
  entry_name : string;
  entry_is_dir : bool;
  entry_st_mtime : Z
}.

Inductive fs_op : Type :=
  | iterdir
  | stat (name : string)
  | rmtree (name : string).

Inductive cleanup_line : Type :=
  | line_cleaned_up (name : string)
  | line_error_cleaning_up (op : fs_op).

(** The body of the [for] loop over the listing taken by [iterdir].  The
    directory content [fs] is passed along; a successful [shutil.rmtree]
    removes the entry of that name, and the first call that raises ends the
    sweep in the [except] branch. *)
Fixpoint cleanup_sweep (fails : fs_op → bool) (current_time max_age_seconds : Z)
    (listing fs : list dir_entry) : list dir_entry * list cleanup_line :=
  match listing with
  | [] => (fs, [])
  | recording_dir :: rest =>
    if entry_is_dir recording_dir then
      if fails (stat (entry_name recording_dir)) then
        (fs, [line_error_cleaning_up (stat (entry_name recording_dir))])
      else
        let dir_age := current_time - entry_st_mtime recording_dir in
        if bool_decide (max_age_seconds < dir_age) then
          if fails (rmtree (entry_name recording_dir)) then
            (fs, [line_error_cleaning_up (rmtree (entry_name recording_dir))])
          else
            let r := cleanup_sweep fails current_time max_age_seconds rest
                       (filter (λ e, entry_name e ≠ entry_name recording_dir) fs) in
            (r.1, line_cleaned_up (entry_name recording_dir) :: r.2)
        else cleanup_sweep fails current_time max_age_seconds rest fs
    else cleanup_sweep fails current_time max_age_seconds rest fs
  end.

(** The method, on the content of [self.output_dir]: the content it leaves
    and the lines it prints. *)
Definition cleanup_old_recordings (fails : fs_op → bool) (now : Z)
    (max_age_days : option Z) (fs : list dir_entry)
  : list dir_entry * list cleanup_line :=
  let max_age_days := default 30 max_age_days in
  let current_time := now in
  let max_age_seconds := max_age_days * 24 * 3600 in
  if fails iterdir then (fs, [line_error_cleaning_up iterdir])
  else cleanup_sweep fails current_time max_age_seconds fs fs.

(** * Properties *)

(** ** Concrete runs *)

Definition bm0 : BufferManager :=
  match __init__ quiet "backend" ∅ with
  | Ok bm => bm
  | Raise _ => MkBufferManager 0 0 0 (Deque 0 []) (Deque 0 []) 0 0 ∅ false
                 (MkQueue 0 []) (MkQueue 0 []) "" []
  end.

Definition run {A} (m : M A) (s : BufferManager) : BufferManager := (m s).2.

(** Oracles that make one kind of external call raise. *)
Definition audio_open_fails : oracle := λ op,
  match op with wave_open _ => true | _ => false end.

Definition release_fails : oracle := λ op,
  match op with VideoWriter_release _ => true | _ => false end.

Definition close_fails : oracle := λ op,
  match op with Wave_close _ => true | _ => false end.

(** A started manager whose writer thread has moved two frames into the
    ring buffer, pushed with the time stamps 5 and 3 in that order. *)
Definition out_of_order_state : BufferManager :=
  run (process_video_buffer 2)
    (run (add_video_frame 0 [] (Some 3))
       (run (add_video_frame 0 [] (Some 5)) (run start bm0))).

(** A started manager whose ring buffers hold one frame and one chunk,
    captured at time 5. *)
Definition preroll_state : BufferManager :=
  run (process_audio_buffer 1)
    (run (process_video_buffer 1)
       (run (add_audio_chunk 5 [9] None)
          (run (add_video_frame 5 [1] None) (run start bm0)))).

(** A manager whose video queue holds 100 frames, stamped 0 to 99. *)
Definition full_queue_state : BufferManager :=
  foldl (λ s i, run (add_video_frame (Z.of_nat i) [] None) s) bm0 (seq 0 100).

(** A manager with a recording for "inc1" started at time 10. *)
Definition recording_state : BufferManager :=
  run (start_incident_recording quiet 10 "inc1" "fight") bm0.

(** The calls a user of the manager and its two writer threads can make. *)
Inductive call : Type :=
  | call_start
  | call_stop (env : oracle) (now : Z)
  | call_add_video_frame (now : Z) (frame : ndarray) (timestamp : option Z)
  | call_add_audio_chunk (now : Z) (audio_data : ndarray) (timestamp : option Z)
  | call_process_video_buffer (passes : nat)
  | call_process_audio_buffer (passes : nat)
  | call_get_video_buffer (now : Z) (duration : option Z)
  | call_get_audio_buffer (now : Z) (duration : option Z)
  | call_start_incident_recording (env : oracle) (now : Z) (incident_id incident_type : string)
  | call_add_incident_frame (env : oracle) (now : Z) (incident_id : string) (frame : ndarray)
  | call_add_incident_audio (env : oracle) (now : Z) (incident_id : string)
      (audio_data : ndarray)
  | call_stop_incident_recording (env : oracle) (now : Z) (incident_id : string)
  | call_get_incident_recording_status (now : Z) (incident_id : string)
  | call_get_status.

(** The manager after a call. *)
Definition exec (c : call) (s : BufferManager) : BufferManager :=
  match c with
  | call_start => run start s
  | call_stop env now => run (stop env now) s
  | call_add_video_frame now frame timestamp => run (add_video_frame now frame timestamp) s
  | call_add_audio_chunk now audio_data timestamp =>
    run (add_audio_chunk now audio_data timestamp) s
  | call_process_video_buffer passes => run (process_video_buffer passes) s
  | call_process_audio_buffer passes => run (process_audio_buffer passes) s
  | call_get_video_buffer now duration => run (get_video_buffer now duration) s
  | call_get_audio_buffer now duration => run (get_audio_buffer now duration) s
  | call_start_incident_recording env now incident_id incident_type =>
    run (start_incident_recording env now incident_id incident_type) s
  | call_add_incident_frame env now incident_id frame =>
    run (add_incident_frame env now incident_id frame) s
  | call_add_incident_audio env now incident_id audio_data =>
    run (add_incident_audio env now incident_id audio_data) s
  | call_stop_incident_recording env now incident_id =>
    run (stop_incident_recording env now incident_id) s
  | call_get_incident_recording_status now incident_id =>
    run (get_incident_recording_status now incident_id) s
  | call_get_status => run get_status s
  end.

(** Sequences of pushes. *)
Definition add_video_frames (pushes : list (Z * ndarray)) (s : BufferManager)
  : BufferManager :=
  foldl (λ s p, run (add_video_frame p.1 p.2 None) s) s pushes.

Definition add_audio_chunks (pushes : list (Z * ndarray)) (s : BufferManager)
  : BufferManager :=
  foldl (λ s p, run (add_audio_chunk p.1 p.2 None) s) s pushes.

(** The shape every outcome of a recording method has: a value is returned,
    and the manager differs at most in the registry entry of the id and in
    the trace, which only grows. *)
Definition touches_only {A} (incident_id : string) (m : M A) (s : BufferManager) : Prop :=
  ∃ a regs' t,
    m s = (Ok a, set_io_trace (io_trace s ++ t) (set_incident_recordings regs' s))
    ∧ ∀ other, other ≠ incident_id → regs' !! other = incident_recordings s !! other.

(** An oracle that makes the write of one image raise. *)
Definition write_fails_on (image : ndarray) : oracle := λ op,
  match op with
  | VideoWriter_write _ image' => bool_decide (image' = image)
  | _ => false
  end.

(** The sizes of the two ring buffers and of the two queues are within
    their capacities, and the capacities are the given ones. *)
Definition within_bounds (vcap acap : nat) (qcap : Z) (s : BufferManager) : Prop :=
  maxlen (video_buffer s) = vcap
  ∧ maxlen (audio_buffer s) = acap
  ∧ maxsize (video_queue s) = qcap
  ∧ maxsize (audio_queue s) = qcap
  ∧ (length (items (video_buffer s)) ≤ vcap)%nat
  ∧ (length (items (audio_buffer s)) ≤ acap)%nat
  ∧ qsize (video_queue s) ≤ qcap
  ∧ qsize (audio_queue s) ≤ qcap.

(** A directory that [cleanup_old_recordings] is to remove: older than the
    maximal age, strictly. *)
Definition old_directory (current_time max_age_seconds : Z) (e : dir_entry) : Prop :=
  entry_is_dir e = true ∧ max_age_seconds < current_time - entry_st_mtime e.

#[global] Instance old_directory_dec current_time max_age_seconds e :
  Decision (old_directory current_time max_age_seconds e).
Proof. unfold old_directory. apply _. Defined.

(** An output directory with a recording of day 0, a file, and a recording
    of day 40. *)
Definition sample_output_dir : list dir_entry :=
  [ DirEntry "inc_old" true 0; DirEntry "notes.txt" false 0;
    DirEntry "inc_new" true (40 * 86400) ].

Example init_default_capacities :
  maxlen (video_buffer bm0) = 900%nat ∧ maxlen (audio_buffer bm0) = 1600%nat
  ∧ maxsize (video_queue bm0) = 100 ∧ output_dir bm0 = "backend/data/recordings".
Proof. vm_compute. done. Qed.

Example deque_append_full :
  items (deque_append (Deque 3 [1; 2; 3]) 4) = [2; 3; 4].
Proof. reflexivity. Qed.

Example deque_append_room :
  items (deque_append (Deque 3 [1; 2]) 3) = [1; 2; 3].
Proof. reflexivity. Qed.

Example start_then_stop :
  let s1 := run (start_incident_recording quiet 10 "inc1" "fight") bm0 in
  let s2 := run (add_incident_frame quiet 11 "inc1" [7]) s1 in
  (stop_incident_recording quiet 15 "inc1" s2).1
  = Ok (Some (Metadata "inc1" "fight" 10 15 5 1 0 "backend/data/recordings/inc1")).
Proof. vm_compute. reflexivity. Qed.

(** ** Ring buffers *)

Section deque_facts.
Context {A : Type}.
Implicit Types (d : deque A) (x : A) (xs : list A).

Lemma deque_append_maxlen d x : maxlen (deque_append d x) = maxlen d.
Proof. reflexivity. Qed.

Lemma deque_append_items d x :
  (length (items d) ≤ maxlen d)%nat →
  items (deque_append d x)
  = drop (length (items d ++ [x]) - maxlen d) (items d ++ [x]).
Proof.
  intros Hinv. unfold deque_append; simpl.
  rewrite length_app; simpl.
  case_bool_decide as Hfull.
  - replace (length (items d) + 1 - maxlen d)%nat with 1%nat by lia.
    by destruct (items d ++ [x]).
  - by replace (length (items d) + 1 - maxlen d)%nat with 0%nat by lia.
Qed.

Lemma deque_append_bounded d x :
  (length (items d) ≤ maxlen d)%nat →
  (length (items (deque_append d x)) ≤ maxlen (deque_append d x))%nat.
Proof.
  intros Hinv. rewrite deque_append_items by done.
  rewrite deque_append_maxlen, length_drop, length_app. simpl. lia.
Qed.



Lemma foldl_deque_append_items xs d :
  (length (items d) ≤ maxlen d)%nat →
  items (foldl deque_append d xs)
  = drop (length (items d ++ xs) - maxlen d) (items d ++ xs).
Proof.
  revert d. induction xs as [|x xs IH]; intros d Hinv; simpl.
  - rewrite app_nil_r. by replace (length (items d) - maxlen d)%nat with 0%nat by lia.
  - rewrite IH by by apply deque_append_bounded.
    rewrite deque_append_maxlen, deque_append_items by done.
    set (l := items d ++ [x]).
    set (k := (length l - maxlen d)%nat).
    assert (length l = S (length (items d))) as Hl
      by (unfold l; rewrite length_app; simpl; lia).
    assert (k ≤ length l)%nat as Hk by (unfold k; lia).
    rewrite <- (drop_app_le l xs k) by done.
    rewrite drop_drop.
    replace (items d ++ x :: xs) with (l ++ xs) by (unfold l; by rewrite <- app_assoc).
    f_equal. rewrite length_drop. unfold k. rewrite !length_app. lia.
Qed.

End deque_facts.

(** ** Ingest queues *)

Ltac unfold_monad :=
  unfold try_except, try_except_Full, try_except_Empty, print, io, io_total,
    mbind, M_bind, mret, M_ret, gets, modify, lift, raise in *.

(** [put_nowait] either stores the item at the back or raises [Full], and
    it raises only on a bounded queue that is at or over its size. *)
Lemma put_nowait_cases {A} (q : Queue A) (item : A) :
  match put_nowait q item with
  | Ok q' => queue q' = queue q ++ [item] ∧ maxsize q' = maxsize q
             ∧ ¬ (0 < maxsize q ≤ qsize q)
  | Raise e => e = Full ∧ 0 < maxsize q ≤ qsize q
  end.
Proof.
  unfold put_nowait.
  destruct (bool_decide (0 < maxsize q)) eqn:H1,
           (bool_decide (maxsize q ≤ qsize q)) eqn:H2; simpl.
  - apply bool_decide_eq_true in H1, H2. done.
  - apply bool_decide_eq_false in H2. repeat split; try done. lia.
  - apply bool_decide_eq_false in H1. repeat split; try done. lia.
  - apply bool_decide_eq_false in H1. repeat split; try done. lia.
Qed.

Lemma qsize_cons {A} (m : Z) (x : A) (rest : list A) :
  qsize (MkQueue m (x :: rest)) = qsize (MkQueue m rest) + 1.
Proof. unfold qsize; simpl. lia. Qed.

(** The case analysis shared by the two capture-side methods: the first
    [put_nowait] succeeds, or it raises [Full] on a non-empty queue, whose
    head is then removed before the second [put_nowait]. *)
Ltac enqueue_cases vq item :=
  let Hput := fresh "Hput" in
  let Hput2 := fresh "Hput2" in
  let Hfull := fresh "Hfull" in
  let m := fresh "m" in
  let x := fresh "x" in
  let rest := fresh "rest" in
  pose proof (put_nowait_cases vq item) as Hput;
  destruct (put_nowait vq item) as [?q1|?e];
  [ destruct Hput as (? & ? & ?); eexists; repeat split; [done..|];
    intros; exfalso; lia |];
  destruct Hput as [-> Hfull];
  unfold get_nowait;
  destruct vq as [m [|x rest]];
  [ unfold qsize in Hfull; simpl in Hfull; lia |];
  simpl; rewrite qsize_cons in *; simpl in *;
  pose proof (put_nowait_cases (MkQueue m rest) item) as Hput2;
  destruct (put_nowait (MkQueue m rest) item) as [?q3|?e];
  [ destruct Hput2 as (? & ? & ?); simpl in *; eexists;
    repeat split; [done..| |]; intros; [exfalso; lia | done]
  | destruct Hput2 as [-> ?]; simpl in *; exists (MkQueue m rest); simpl;
    repeat split; [done..| |]; intros; exfalso; lia ].

Lemma add_video_frame_run s now frame timestamp :
  let item := FrameData (copy frame) (default now timestamp) in
  let q := video_queue s in
  ∃ q', add_video_frame now frame timestamp s = (Ok tt, set_video_queue q' s)
    ∧ maxsize q' = maxsize q
    ∧ (¬ (0 < maxsize q ≤ qsize q) → queue q' = queue q ++ [item])
    ∧ (0 < maxsize q → qsize q = maxsize q → queue q' = tail (queue q) ++ [item]).
Proof.
  intros item q. unfold add_video_frame, video_queue_put_nowait, video_queue_get_nowait.
  fold item. clearbody item. unfold_monad. subst q. simpl.
  enqueue_cases (video_queue s) item.
Qed.

Lemma add_audio_chunk_run s now audio_data timestamp :
  let item := ChunkData (copy audio_data) (default now timestamp) in
  let q := audio_queue s in
  ∃ q', add_audio_chunk now audio_data timestamp s = (Ok tt, set_audio_queue q' s)
    ∧ maxsize q' = maxsize q
    ∧ (¬ (0 < maxsize q ≤ qsize q) → queue q' = queue q ++ [item])
    ∧ (0 < maxsize q → qsize q = maxsize q → queue q' = tail (queue q) ++ [item]).
Proof.
  intros item q. unfold add_audio_chunk, audio_queue_put_nowait, audio_queue_get_nowait.
  fold item. clearbody item. unfold_monad. subst q. simpl.
  enqueue_cases (audio_queue s) item.
Qed.

(** ** Writer passes *)

Lemma process_video_buffer_body_step s fd rest :
  queue (video_queue s) = fd :: rest →
  process_video_buffer_body s
  = (Ok tt, set_video_buffer (deque_append (video_buffer s) fd)
              (set_video_queue (MkQueue (maxsize (video_queue s)) rest) s)).
Proof.
  intros Hq. unfold process_video_buffer_body, video_queue_get_nowait, get_nowait.
  unfold_monad. simpl. by rewrite Hq.
Qed.

Lemma process_video_buffer_body_idle s :
  queue (video_queue s) = [] → process_video_buffer_body s = (Ok tt, s).
Proof.
  intros Hq. unfold process_video_buffer_body, video_queue_get_nowait, get_nowait.
  unfold_monad. simpl. by rewrite Hq.
Qed.

Lemma process_audio_buffer_body_step s cd rest :
  queue (audio_queue s) = cd :: rest →
  process_audio_buffer_body s
  = (Ok tt, set_audio_buffer (deque_append (audio_buffer s) cd)
              (set_audio_queue (MkQueue (maxsize (audio_queue s)) rest) s)).
Proof.
  intros Hq. unfold process_audio_buffer_body, audio_queue_get_nowait, get_nowait.
  unfold_monad. simpl. by rewrite Hq.
Qed.

Lemma process_audio_buffer_body_idle s :
  queue (audio_queue s) = [] → process_audio_buffer_body s = (Ok tt, s).
Proof.
  intros Hq. unfold process_audio_buffer_body, audio_queue_get_nowait, get_nowait.
  unfold_monad. simpl. by rewrite Hq.
Qed.

(** A running writer thread that is given enough passes moves the whole
    queue into the ring buffer, oldest first. *)
Lemma process_video_buffer_drains xs s :
  is_running s = true →
  queue (video_queue s) = xs →
  process_video_buffer (length xs) s
  = (Ok tt, set_video_buffer (foldl deque_append (video_buffer s) xs)
              (set_video_queue (MkQueue (maxsize (video_queue s)) []) s)).
Proof.
  revert s. induction xs as [|x xs IH]; intros s Hrun Hq.
  - simpl. unfold_monad. destruct s as [? ? ? [] ? ? ? ? ? [] ? ? ?].
    simpl in *. by subst.
  - simpl. unfold mbind, M_bind, gets. rewrite Hrun.
    rewrite (process_video_buffer_body_step s x xs Hq).
    rewrite IH by done. done.
Qed.

Lemma process_audio_buffer_drains xs s :
  is_running s = true →
  queue (audio_queue s) = xs →
  process_audio_buffer (length xs) s
  = (Ok tt, set_audio_buffer (foldl deque_append (audio_buffer s) xs)
              (set_audio_queue (MkQueue (maxsize (audio_queue s)) []) s)).
Proof.
  revert s. induction xs as [|x xs IH]; intros s Hrun Hq.
  - simpl. unfold_monad. destruct s as [? ? ? ? [] ? ? ? ? ? [] ? ?].
    simpl in *. by subst.
  - simpl. unfold mbind, M_bind, gets. rewrite Hrun.
    rewrite (process_audio_buffer_body_step s x xs Hq).
    rewrite IH by done. done.
Qed.

Lemma init_buffers env here config bm :
  __init__ env here config = Ok bm →
  video_buffer bm = Deque (Z.to_nat (config_get config "video_buffer_size" 30 * 30)) []
  ∧ audio_buffer bm = Deque (Z.to_nat (config_get config "audio_buffer_size" 10 * 160)) []
  ∧ video_buffer_size bm = config_get config "video_buffer_size" 30
  ∧ audio_buffer_size bm = config_get config "audio_buffer_size" 10
  ∧ 0 ≤ video_buffer_size bm ∧ 0 ≤ audio_buffer_size bm.
Proof.
  unfold __init__, deque_new. intros Hinit.
  repeat case_bool_decide; try done.
  destruct (env _); [done|].
  injection Hinit as <-. simpl. repeat split; lia.
Qed.



(** ** Windowed reads *)

Lemma get_video_buffer_run s now duration :
  get_video_buffer now duration s
  = (Ok (filter (λ fd, now - default (video_buffer_size s) duration ≤ frame_timestamp fd)
           (items (video_buffer s))), s).
Proof. unfold get_video_buffer. unfold_monad. by destruct duration. Qed.

Lemma get_audio_buffer_run s now duration :
  get_audio_buffer now duration s
  = (Ok (filter (λ cd, now - default (audio_buffer_size s) duration ≤ chunk_timestamp cd)
           (items (audio_buffer s))), s).
Proof. unfold get_audio_buffer. unfold_monad. by destruct duration. Qed.

Section filter_facts.
Context {A : Type} (R : relation A) (P : A → Prop) `{!∀ x, Decision (P x)}.

Lemma filter_StronglySorted (l : list A) :
  StronglySorted R l → StronglySorted R (filter P l).
Proof.
  induction 1 as [|x l Hl IH Hx]; [constructor|].
  rewrite filter_cons. case_decide; [|done].
  constructor; [done|].
  apply Forall_forall. intros y [_ Hy]%list_elem_of_filter.
  by eapply Forall_forall in Hx.
Qed.

Lemma filter_Sorted `{!Transitive R} (l : list A) :
  Sorted R l → Sorted R (filter P l).
Proof.
  intros Hl. apply StronglySorted_Sorted, filter_StronglySorted.
  by apply Sorted_StronglySorted.
Qed.

Lemma filter_none (l : list A) : (∀ x, x ∈ l → ¬ P x) → filter P l = [].
Proof.
  induction l as [|x l IH]; intros Hnone; [done|].
  rewrite filter_cons. case_decide as Hx.
  - exfalso. by apply (Hnone x); [left|].
  - apply IH. intros y Hy. apply Hnone. by right.
Qed.
End filter_facts.

#[global] Instance frame_timestamp_le_trans :
  Transitive (λ a b : frame_data, frame_timestamp a ≤ frame_timestamp b).
Proof. intros a b c. lia. Qed.

#[global] Instance chunk_timestamp_le_trans :
  Transitive (λ a b : chunk_data, chunk_timestamp a ≤ chunk_timestamp b).
Proof. intros a b c. lia. Qed.

(** C4, as the code has it.  A windowed read returns without an error and
    leaves the manager as it was; its result is exactly the retained
    samples whose time stamp is at least the cut-off [now - duration], in
    the order the buffer holds them (the order of the appends).  That order
    is non-decreasing in the time stamps whenever the buffer content is; and
    the result is empty when no retained sample reaches the cut-off. *)
Theorem window_read_filters_in_buffer_order s now duration :
  let vcut := now - default (video_buffer_size s) duration in
  let acut := now - default (audio_buffer_size s) duration in
  ∃ frames chunks,
    get_video_buffer now duration s = (Ok frames, s)
    ∧ get_audio_buffer now duration s = (Ok chunks, s)
    ∧ frames = filter (λ fd, vcut ≤ frame_timestamp fd) (items (video_buffer s))
    ∧ chunks = filter (λ cd, acut ≤ chunk_timestamp cd) (items (audio_buffer s))
    ∧ (∀ fd, fd ∈ frames ↔ fd ∈ items (video_buffer s) ∧ vcut ≤ frame_timestamp fd)
    ∧ (∀ cd, cd ∈ chunks ↔ cd ∈ items (audio_buffer s) ∧ acut ≤ chunk_timestamp cd)
    ∧ frames `sublist_of` items (video_buffer s)
    ∧ chunks `sublist_of` items (audio_buffer s)
    ∧ (Sorted (λ a b, frame_timestamp a ≤ frame_timestamp b) (items (video_buffer s)) →
       Sorted (λ a b, frame_timestamp a ≤ frame_timestamp b) frames)
    ∧ (Sorted (λ a b, chunk_timestamp a ≤ chunk_timestamp b) (items (audio_buffer s)) →
       Sorted (λ a b, chunk_timestamp a ≤ chunk_timestamp b) chunks)
    ∧ ((∀ fd, fd ∈ items (video_buffer s) → frame_timestamp fd < vcut) → frames = [])
    ∧ ((∀ cd, cd ∈ items (audio_buffer s) → chunk_timestamp cd < acut) → chunks = []).
Proof.
  intros vcut acut. eexists _, _.
  split; [apply get_video_buffer_run|]. split; [apply get_audio_buffer_run|].
  fold vcut acut.
  split; [done|]. split; [done|].
  split; [intros fd; rewrite list_elem_of_filter; tauto|].
  split; [intros cd; rewrite list_elem_of_filter; tauto|].
  split; [apply sublist_filter|]. split; [apply sublist_filter|].
  split; [apply filter_Sorted, _|]. split; [apply filter_Sorted, _|].
  split; intros Hnone; apply filter_none; intros x Hx; specialize (Hnone x Hx); lia.
Qed.

(** C5. Two windowed reads with the same cut-off [since = now - duration],
    the second made on the manager as the first one left it, return equal
    sequences, and neither changes the manager. *)
Theorem window_read_idempotent s now1 duration1 now2 duration2 :
  (now1 - default (video_buffer_size s) duration1
   = now2 - default (video_buffer_size s) duration2 →
   ∀ r1 s1, get_video_buffer now1 duration1 s = (r1, s1) →
            s1 = s ∧ get_video_buffer now2 duration2 s1 = (r1, s1))
  ∧ (now1 - default (audio_buffer_size s) duration1
     = now2 - default (audio_buffer_size s) duration2 →
     ∀ r1 s1, get_audio_buffer now1 duration1 s = (r1, s1) →
              s1 = s ∧ get_audio_buffer now2 duration2 s1 = (r1, s1)).
Proof.
  split; intros Hsince r1 s1 Hread.
  - rewrite get_video_buffer_run in Hread. injection Hread as <- <-.
    split; [done|]. rewrite get_video_buffer_run. by rewrite Hsince.
  - rewrite get_audio_buffer_run in Hread. injection Hread as <- <-.
    split; [done|]. rewrite get_audio_buffer_run. by rewrite Hsince.
Qed.


(** ** Visibility of pushed samples *)

Lemma last_drop_lt {A} (l : list A) (k : nat) :
  (k < length l)%nat → last (drop k l) = last l.
Proof.
  intros Hk. rewrite !last_lookup, lookup_drop, length_drop. f_equal. lia.
Qed.

Lemma foldl_deque_append_last {A} (d : deque A) (xs : list A) (x : A) :
  (length (items d) ≤ maxlen d)%nat → (0 < maxlen d)%nat →
  last (items (foldl deque_append d (xs ++ [x]))) = Some x.
Proof.
  intros Hinv Hpos. rewrite foldl_deque_append_items by done.
  rewrite last_drop_lt by (rewrite !length_app; simpl; lia).
  by rewrite !app_assoc, last_snoc.
Qed.

Lemma enqueued_at_back {A} (q q' : list A) (m : Z) (x : A) :
  (¬ (0 < m ≤ Z.of_nat (length q)) → q' = q ++ [x]) →
  (0 < m → Z.of_nat (length q) = m → q' = tail q ++ [x]) →
  Z.of_nat (length q) ≤ m ∨ m ≤ 0 →
  ∃ front, q' = front ++ [x].
Proof.
  intros Hroom Hfull Hinv.
  destruct (decide (0 < m ∧ Z.of_nat (length q) = m)) as [[? ?]|Hn].
  - exists (tail q). by apply Hfull.
  - exists q. apply Hroom. lia.
Qed.

(** C10. A capture-side push leaves both ring buffers as they were, so
    every windowed read made right after it returns what it returned
    before, and does not contain the pushed sample unless an equal sample
    was retained already.  The sample sits at the back of the ingest queue;
    once the running writer thread has made its passes over the queue, the
    sample is the newest entry of the ring buffer and the windowed reads
    whose cut-off it reaches contain it. *)
Theorem push_visible_only_after_writer s now payload timestamp :
  let fd := FrameData (copy payload) (default now timestamp) in
  let cd := ChunkData (copy payload) (default now timestamp) in
  (∃ s1, add_video_frame now payload timestamp s = (Ok tt, s1)
     ∧ video_buffer s1 = video_buffer s ∧ audio_buffer s1 = audio_buffer s
     ∧ (∀ now' d, (get_video_buffer now' d s1).1 = (get_video_buffer now' d s).1)
     ∧ (fd ∉ items (video_buffer s) →
        ∀ now' d frames s2,
          get_video_buffer now' d s1 = (Ok frames, s2) → fd ∉ frames)
     ∧ (qsize (video_queue s) ≤ maxsize (video_queue s) ∨ maxsize (video_queue s) ≤ 0 →
        last (queue (video_queue s1)) = Some fd
        ∧ (is_running s = true →
           (length (items (video_buffer s)) ≤ maxlen (video_buffer s))%nat →
           (0 < maxlen (video_buffer s))%nat →
           ∃ s2, process_video_buffer (length (queue (video_queue s1))) s1 = (Ok tt, s2)
             ∧ last (items (video_buffer s2)) = Some fd
             ∧ ∀ now' d frames s3,
                 now' - default (video_buffer_size s) d ≤ frame_timestamp fd →
                 get_video_buffer now' d s2 = (Ok frames, s3) → fd ∈ frames)))
  ∧ (∃ s1, add_audio_chunk now payload timestamp s = (Ok tt, s1)
       ∧ video_buffer s1 = video_buffer s ∧ audio_buffer s1 = audio_buffer s
       ∧ (∀ now' d, (get_audio_buffer now' d s1).1 = (get_audio_buffer now' d s).1)
       ∧ (cd ∉ items (audio_buffer s) →
          ∀ now' d chunks s2,
            get_audio_buffer now' d s1 = (Ok chunks, s2) → cd ∉ chunks)
       ∧ (qsize (audio_queue s) ≤ maxsize (audio_queue s) ∨ maxsize (audio_queue s) ≤ 0 →
          last (queue (audio_queue s1)) = Some cd
          ∧ (is_running s = true →
             (length (items (audio_buffer s)) ≤ maxlen (audio_buffer s))%nat →
             (0 < maxlen (audio_buffer s))%nat →
             ∃ s2, process_audio_buffer (length (queue (audio_queue s1))) s1 = (Ok tt, s2)
               ∧ last (items (audio_buffer s2)) = Some cd
               ∧ ∀ now' d chunks s3,
                   now' - default (audio_buffer_size s) d ≤ chunk_timestamp cd →
                   get_audio_buffer now' d s2 = (Ok chunks, s3) → cd ∈ chunks))).
Proof.
  intros fd cd. split.
  - destruct (add_video_frame_run s now payload timestamp) as (q' & Hrun & Hmax & Hroom & Hfull).
    fold fd in Hroom, Hfull. clearbody fd. clear cd.
    exists (set_video_queue q' s). split; [done|]. split; [done|]. split; [done|].
    split; [by intros; rewrite !get_video_buffer_run|].
    split.
    { intros Hfresh now' d frames s2. rewrite get_video_buffer_run. intros [= <- <-].
      simpl. rewrite list_elem_of_filter. tauto. }
    intros Hinv.
    destruct (enqueued_at_back _ _ _ _ Hroom Hfull Hinv) as [front Hq'].
    simpl. split; [by rewrite Hq', last_snoc|].
    intros Hrunning Hlen Hpos. eexists. split.
    { by apply process_video_buffer_drains. }
    simpl. rewrite Hq'. split; [by apply foldl_deque_append_last|].
    intros now' d frames s3 Hcut. rewrite get_video_buffer_run. intros [= <- <-].
    simpl. apply list_elem_of_filter. split; [done|].
    eapply last_Some_elem_of. by apply foldl_deque_append_last.
  - destruct (add_audio_chunk_run s now payload timestamp) as (q' & Hrun & Hmax & Hroom & Hfull).
    fold cd in Hroom, Hfull. clearbody cd. clear fd.
    exists (set_audio_queue q' s). split; [done|]. split; [done|]. split; [done|].
    split; [by intros; rewrite !get_audio_buffer_run|].
    split.
    { intros Hfresh now' d chunks s2. rewrite get_audio_buffer_run. intros [= <- <-].
      simpl. rewrite list_elem_of_filter. tauto. }
    intros Hinv.
    destruct (enqueued_at_back _ _ _ _ Hroom Hfull Hinv) as [front Hq'].
    simpl. split; [by rewrite Hq', last_snoc|].
    intros Hrunning Hlen Hpos. eexists. split.
    { by apply process_audio_buffer_drains. }
    simpl. rewrite Hq'. split; [by apply foldl_deque_append_last|].
    intros now' d chunks s3 Hcut. rewrite get_audio_buffer_run. intros [= <- <-].
    simpl. apply list_elem_of_filter. split; [done|].
    eapply last_Some_elem_of. by apply foldl_deque_append_last.
Qed.

(** ** start_incident_recording *)

Lemma start_already_active s env now incident_id incident_type r :
  incident_recordings s !! incident_id = Some r →
  start_incident_recording env now incident_id incident_type s
  = (Ok false,
     set_io_trace (io_trace s ++ [Stdout (msg_already_in_progress incident_id)]) s).
Proof.
  intros Hr. unfold start_incident_recording. unfold_monad. simpl.
  rewrite bool_decide_true by (rewrite Hr; eauto). done.
Qed.

Lemma start_mkdir_fails s env now incident_id incident_type :
  incident_recordings s !! incident_id = None →
  env (mkdir (incident_dir s incident_id)) = true →
  start_incident_recording env now incident_id incident_type s
  = (Ok false,
     set_io_trace (io_trace s ++ [Call (mkdir (incident_dir s incident_id)) true;
                                  Stdout (msg_error_starting
                                           (IOFailure (mkdir (incident_dir s incident_id))))]) s).
Proof.
  intros Hr Hmk. unfold start_incident_recording. unfold_monad. simpl.
  rewrite bool_decide_false by (rewrite Hr; by intros []).
  unfold incident_dir in Hmk. rewrite Hmk. simpl.
  by rewrite <- app_assoc.
Qed.

Lemma start_video_open_fails s env now incident_id incident_type :
  incident_recordings s !! incident_id = None →
  env (mkdir (incident_dir s incident_id)) = false →
  env (open_video s incident_id) = true →
  start_incident_recording env now incident_id incident_type s
  = (Ok false,
     set_io_trace (io_trace s ++ [Call (mkdir (incident_dir s incident_id)) false;
                                  Call (open_video s incident_id) true;
                                  Stdout (msg_error_starting
                                           (IOFailure (open_video s incident_id)))])
       (set_incident_recordings
          (<[incident_id := Recording incident_type now [] [] (incident_dir s incident_id)
                              None None]> (incident_recordings s)) s)).
Proof.
  intros Hr Hmk Hvo. unfold start_incident_recording. unfold_monad. simpl.
  rewrite bool_decide_false by (rewrite Hr; by intros []).
  unfold open_video, video_path, incident_dir in *. rewrite Hmk. simpl.
  rewrite Hvo. simpl. by rewrite <- !app_assoc.
Qed.

Lemma start_audio_open_fails s env now incident_id incident_type :
  incident_recordings s !! incident_id = None →
  env (mkdir (incident_dir s incident_id)) = false →
  env (open_video s incident_id) = false →
  env (wave_open (audio_path s incident_id)) = true →
  start_incident_recording env now incident_id incident_type s
  = (Ok false,
     set_io_trace (io_trace s ++ [Call (mkdir (incident_dir s incident_id)) false;
                                  Call (open_video s incident_id) false;
                                  Call (wave_open (audio_path s incident_id)) true;
                                  Stdout (msg_error_starting
                                           (IOFailure (wave_open (audio_path s incident_id))))])
       (set_incident_recordings
          (<[incident_id := Recording incident_type now [] [] (incident_dir s incident_id)
                              (Some (video_handle s incident_id)) None]>
             (incident_recordings s)) s)).
Proof.
  intros Hr Hmk Hvo Hao. unfold start_incident_recording, update_recording.
  unfold_monad. simpl.
  rewrite bool_decide_false by (rewrite Hr; by intros []).
  unfold open_video, video_handle, audio_path, video_path, incident_dir in *.
  rewrite Hmk. simpl. rewrite Hvo. simpl. rewrite lookup_insert_eq. simpl.
  rewrite Hao. simpl. rewrite insert_insert_eq. by rewrite <- !app_assoc.
Qed.

Lemma start_ok s env now incident_id incident_type :
  incident_recordings s !! incident_id = None →
  env (mkdir (incident_dir s incident_id)) = false →
  env (open_video s incident_id) = false →
  env (wave_open (audio_path s incident_id)) = false →
  start_incident_recording env now incident_id incident_type s
  = (Ok true,
     set_io_trace (io_trace s ++ start_events s incident_id)
       (set_incident_recordings
          (<[incident_id := Recording incident_type now [] [] (incident_dir s incident_id)
                              (Some (video_handle s incident_id))
                              (Some (audio_handle s incident_id))]>
             (incident_recordings s)) s)).
Proof.
  intros Hr Hmk Hvo Hao. unfold start_incident_recording, update_recording.
  unfold_monad. simpl.
  rewrite bool_decide_false by (rewrite Hr; by intros []).
  unfold start_events, open_video, video_handle, audio_handle, audio_path, video_path,
    incident_dir in *.
  rewrite Hmk. simpl. rewrite Hvo. simpl. rewrite lookup_insert_eq. simpl.
  rewrite Hao. simpl. rewrite insert_insert_eq, lookup_insert_eq. simpl.
  rewrite insert_insert_eq. by rewrite <- !app_assoc.
Qed.

(** A start that returns [True] found no entry for the id, had no external
    call fail, and left the fresh entry with both writers. *)
Lemma start_true_inv s env now incident_id incident_type s1 :
  start_incident_recording env now incident_id incident_type s = (Ok true, s1) →
  incident_recordings s !! incident_id = None
  ∧ s1 = set_io_trace (io_trace s ++ start_events s incident_id)
           (set_incident_recordings
              (<[incident_id := Recording incident_type now [] []
                                  (incident_dir s incident_id)
                                  (Some (video_handle s incident_id))
                                  (Some (audio_handle s incident_id))]>
                 (incident_recordings s)) s).
Proof.
  intros Hstart.
  destruct (incident_recordings s !! incident_id) as [r|] eqn:Hr.
  { by rewrite (start_already_active _ _ _ _ _ r) in Hstart. }
  destruct (env (mkdir (incident_dir s incident_id))) eqn:Hmk.
  { by rewrite start_mkdir_fails in Hstart. }
  destruct (env (open_video s incident_id)) eqn:Hvo.
  { by rewrite start_video_open_fails in Hstart. }
  destruct (env (wave_open (audio_path s incident_id))) eqn:Hao.
  { by rewrite start_audio_open_fails in Hstart. }
  rewrite start_ok in Hstart by done. by injection Hstart as <-.
Qed.


(** ** add_incident_frame, add_incident_audio *)

Lemma add_incident_frame_unknown s env now incident_id frame :
  incident_recordings s !! incident_id = None →
  add_incident_frame env now incident_id frame s = (Ok tt, s).
Proof.
  intros Hr. unfold add_incident_frame. unfold_monad. simpl. by rewrite Hr.
Qed.

Lemma add_incident_frame_written s env now incident_id frame r w :
  incident_recordings s !! incident_id = Some r →
  video_writer r = Some w →
  env (VideoWriter_write w frame) = false →
  add_incident_frame env now incident_id frame s
  = (Ok tt,
     set_io_trace (io_trace s ++ [Call (VideoWriter_write w frame) false])
       (set_incident_recordings
          (<[incident_id := append_video_frame (FrameData (copy frame) now) r]>
             (incident_recordings s)) s)).
Proof.
  intros Hr Hw Hok. unfold add_incident_frame, update_recording. unfold_monad. simpl.
  rewrite Hr, Hw. simpl. rewrite Hok. simpl. by rewrite Hr.
Qed.

Lemma add_incident_frame_write_fails s env now incident_id frame r w :
  incident_recordings s !! incident_id = Some r →
  video_writer r = Some w →
  env (VideoWriter_write w frame) = true →
  add_incident_frame env now incident_id frame s
  = (Ok tt,
     set_io_trace (io_trace s ++ [Call (VideoWriter_write w frame) true;
                                  Stdout (msg_error_adding_frame
                                           (IOFailure (VideoWriter_write w frame)))]) s).
Proof.
  intros Hr Hw Hfail. unfold add_incident_frame, update_recording. unfold_monad. simpl.
  rewrite Hr, Hw. simpl. rewrite Hfail. simpl. by rewrite <- app_assoc.
Qed.

Lemma add_incident_frame_no_writer s env now incident_id frame r :
  incident_recordings s !! incident_id = Some r →
  video_writer r = None →
  add_incident_frame env now incident_id frame s
  = (Ok tt,
     set_incident_recordings
       (<[incident_id := append_video_frame (FrameData (copy frame) now) r]>
          (incident_recordings s)) s).
Proof.
  intros Hr Hw. unfold add_incident_frame, update_recording. unfold_monad. simpl.
  rewrite Hr, Hw. simpl. rewrite Hr. by destruct s.
Qed.

Lemma add_incident_audio_unknown s env now incident_id audio_data :
  incident_recordings s !! incident_id = None →
  add_incident_audio env now incident_id audio_data s = (Ok tt, s).
Proof.
  intros Hr. unfold add_incident_audio. unfold_monad. simpl. by rewrite Hr.
Qed.

Lemma add_incident_audio_written s env now incident_id audio_data r w :
  incident_recordings s !! incident_id = Some r →
  audio_writer r = Some w →
  env (Wave_writeframes w (tobytes audio_data)) = false →
  add_incident_audio env now incident_id audio_data s
  = (Ok tt,
     set_io_trace (io_trace s ++ [Call (Wave_writeframes w (tobytes audio_data)) false])
       (set_incident_recordings
          (<[incident_id := append_audio_chunk (ChunkData (copy audio_data) now) r]>
             (incident_recordings s)) s)).
Proof.
  intros Hr Hw Hok. unfold add_incident_audio, update_recording. unfold_monad. simpl.
  rewrite Hr, Hw. simpl. rewrite Hok. simpl. by rewrite Hr.
Qed.

Lemma add_incident_audio_write_fails s env now incident_id audio_data r w :
  incident_recordings s !! incident_id = Some r →
  audio_writer r = Some w →
  env (Wave_writeframes w (tobytes audio_data)) = true →
  add_incident_audio env now incident_id audio_data s
  = (Ok tt,
     set_io_trace (io_trace s ++ [Call (Wave_writeframes w (tobytes audio_data)) true;
                                  Stdout (msg_error_adding_audio
                                           (IOFailure (Wave_writeframes w
                                                         (tobytes audio_data))))]) s).
Proof.
  intros Hr Hw Hfail. unfold add_incident_audio, update_recording. unfold_monad. simpl.
  rewrite Hr, Hw. simpl. rewrite Hfail. simpl. by rewrite <- app_assoc.
Qed.

(** ** stop_incident_recording *)

Lemma stop_unknown s env now incident_id :
  incident_recordings s !! incident_id = None →
  stop_incident_recording env now incident_id s = (Ok None, s).
Proof.
  intros Hr. unfold stop_incident_recording. unfold_monad. simpl. by rewrite Hr.
Qed.

Lemma stop_release_fails s env now incident_id r w :
  incident_recordings s !! incident_id = Some r →
  video_writer r = Some w →
  env (VideoWriter_release w) = true →
  stop_incident_recording env now incident_id s
  = (Ok None,
     set_io_trace (io_trace s ++ [Call (VideoWriter_release w) true;
                                  Stdout (msg_error_stopping
                                           (IOFailure (VideoWriter_release w)))]) s).
Proof.
  intros Hr Hw Hfail. unfold stop_incident_recording. unfold_monad. simpl.
  rewrite Hr, Hw. simpl. rewrite Hfail. simpl. by rewrite <- app_assoc.
Qed.

Lemma stop_close_fails s env now incident_id r w :
  incident_recordings s !! incident_id = Some r →
  (∀ v, video_writer r = Some v → env (VideoWriter_release v) = false) →
  audio_writer r = Some w →
  env (Wave_close w) = true →
  stop_incident_recording env now incident_id s
  = (Ok None,
     set_io_trace (io_trace s ++ release_events r
                   ++ [Call (Wave_close w) true;
                       Stdout (msg_error_stopping (IOFailure (Wave_close w)))]) s).
Proof.
  intros Hr Hv Hw Hfail. unfold stop_incident_recording, release_events.
  unfold_monad. simpl. rewrite Hr, Hw.
  destruct (video_writer r) as [v|]; simpl.
  - rewrite (Hv v) by done. simpl. rewrite Hfail. simpl. by rewrite <- !app_assoc.
  - rewrite Hfail. simpl. by rewrite <- !app_assoc.
Qed.

Lemma stop_dump_fails s env now incident_id r :
  incident_recordings s !! incident_id = Some r →
  (∀ v, video_writer r = Some v → env (VideoWriter_release v) = false) →
  (∀ w, audio_writer r = Some w → env (Wave_close w) = false) →
  env (json_dump (metadata_path r incident_id) (metadata_of incident_id r now)) = true →
  stop_incident_recording env now incident_id s
  = (Ok None,
     set_io_trace
       (io_trace s ++ release_events r ++ close_events r
        ++ [Call (json_dump (metadata_path r incident_id) (metadata_of incident_id r now))
              true;
            Stdout (msg_error_stopping
                     (IOFailure (json_dump (metadata_path r incident_id)
                                   (metadata_of incident_id r now))))]) s).
Proof.
  intros Hr Hv Hw Hfail.
  unfold stop_incident_recording, release_events, close_events.
  unfold metadata_path, metadata_of in *.
  unfold_monad. simpl. rewrite Hr.
  destruct (video_writer r) as [v|], (audio_writer r) as [w|]; simpl;
    rewrite ?(Hv v), ?(Hw w) by done; simpl;
    rewrite ?(Hv v), ?(Hw w) by done; simpl;
    rewrite Hfail; simpl; by rewrite <- ?app_assoc.
Qed.

Lemma stop_ok s env now incident_id r :
  incident_recordings s !! incident_id = Some r →
  (∀ v, video_writer r = Some v → env (VideoWriter_release v) = false) →
  (∀ w, audio_writer r = Some w → env (Wave_close w) = false) →
  env (json_dump (metadata_path r incident_id) (metadata_of incident_id r now)) = false →
  stop_incident_recording env now incident_id s
  = (Ok (Some (metadata_of incident_id r now)),
     set_io_trace (io_trace s ++ stop_events incident_id r now)
       (set_incident_recordings (delete incident_id (incident_recordings s)) s)).
Proof.
  intros Hr Hv Hw Hdump.
  unfold stop_incident_recording, stop_events, release_events, close_events.
  unfold metadata_path, metadata_of in *.
  unfold_monad. simpl. rewrite Hr.
  destruct (video_writer r) as [v|], (audio_writer r) as [w|]; simpl;
    rewrite ?(Hv v), ?(Hw w) by done; simpl;
    rewrite ?(Hv v), ?(Hw w) by done; simpl;
    rewrite Hdump; simpl; rewrite Hr; simpl; by rewrite <- ?app_assoc.
Qed.

(** ** Sequences of live samples *)

Lemma add_incident_frames_run env incident_id calls s r w :
  incident_recordings s !! incident_id = Some r →
  video_writer r = Some w →
  (∀ frame, env (VideoWriter_write w frame) = false) →
  add_incident_frames env incident_id calls s
  = (Ok tt,
     set_io_trace (io_trace s ++ map (λ c, Call (VideoWriter_write w c.2) false) calls)
       (set_incident_recordings
          (<[incident_id :=
               Recording (type r) (start_time r)
                 (video_frames r ++ map (λ c, FrameData (copy c.2) c.1) calls)
                 (audio_chunks r) (directory r) (video_writer r) (audio_writer r)]>
             (incident_recordings s)) s)).
Proof.
  revert s r. induction calls as [|[now frame] calls IH]; intros s r Hr Hw Hok.
  - simpl. unfold_monad. rewrite !app_nil_r.
    replace (Recording _ _ _ _ _ _ _) with r by by destruct r.
    rewrite insert_id by done. by destruct s.
  - simpl. unfold mbind, M_bind.
    rewrite (add_incident_frame_written _ _ _ _ _ r w) by done.
    erewrite IH; [|apply lookup_insert_eq|exact Hw|exact Hok].
    unfold set_io_trace, set_incident_recordings. simpl.
    by rewrite insert_insert_eq, <- !app_assoc.
Qed.

Lemma add_incident_audios_run env incident_id calls s r w :
  incident_recordings s !! incident_id = Some r →
  audio_writer r = Some w →
  (∀ audio_data, env (Wave_writeframes w (tobytes audio_data)) = false) →
  add_incident_audios env incident_id calls s
  = (Ok tt,
     set_io_trace (io_trace s
                   ++ map (λ c, Call (Wave_writeframes w (tobytes c.2)) false) calls)
       (set_incident_recordings
          (<[incident_id :=
               Recording (type r) (start_time r) (video_frames r)
                 (audio_chunks r ++ map (λ c, ChunkData (copy c.2) c.1) calls)
                 (directory r) (video_writer r) (audio_writer r)]>
             (incident_recordings s)) s)).
Proof.
  revert s r. induction calls as [|[now audio_data] calls IH]; intros s r Hr Hw Hok.
  - simpl. unfold_monad. rewrite !app_nil_r.
    replace (Recording _ _ _ _ _ _ _) with r by by destruct r.
    rewrite insert_id by done. by destruct s.
  - simpl. unfold mbind, M_bind.
    rewrite (add_incident_audio_written _ _ _ _ _ r w) by done.
    erewrite IH; [|apply lookup_insert_eq|exact Hw|exact Hok].
    unfold set_io_trace, set_incident_recordings. simpl.
    by rewrite insert_insert_eq, <- !app_assoc.
Qed.

(** What a sink receives from a run of successful writes. *)
Lemma video_sink_writes w (calls : list (Z * ndarray)) :
  video_sink w (map (λ c, Call (VideoWriter_write w c.2) false) calls) = map snd calls.
Proof.
  induction calls as [|c calls IH]; [done|].
  simpl. unfold video_sink in *. simpl. rewrite decide_True by done. by rewrite IH.
Qed.

Lemma audio_sink_writes w (calls : list (Z * ndarray)) :
  audio_sink w (map (λ c, Call (Wave_writeframes w (tobytes c.2)) false) calls)
  = map (λ c, tobytes c.2) calls.
Proof.
  induction calls as [|c calls IH]; [done|].
  simpl. unfold audio_sink in *. simpl. rewrite decide_True by done. by rewrite IH.
Qed.

Lemma video_sink_app w t1 t2 : video_sink w (t1 ++ t2) = video_sink w t1 ++ video_sink w t2.
Proof. apply omap_app. Qed.

Lemma audio_sink_app w t1 t2 : audio_sink w (t1 ++ t2) = audio_sink w t1 ++ audio_sink w t2.
Proof. apply omap_app. Qed.

Lemma video_sink_audio_writes w w' (calls : list (Z * ndarray)) :
  video_sink w (map (λ c, Call (Wave_writeframes w' (tobytes c.2)) false) calls) = [].
Proof. by induction calls. Qed.

Lemma audio_sink_video_writes w w' (calls : list (Z * ndarray)) :
  audio_sink w (map (λ c, Call (VideoWriter_write w' c.2) false) calls) = [].
Proof. by induction calls. Qed.

(** ** The registry *)



(** C1, as the code has it.  A start that returns [True] neither reads nor
    changes the ring buffers and writes nothing to the two sinks it opens:
    when it returns, both sinks are empty whatever the buffers hold, and
    from then on they receive exactly the samples passed by
    [add_incident_frame] and [add_incident_audio] for the id, in the order
    of the calls. *)
Theorem start_writes_no_preroll s env now incident_id incident_type s1 :
  start_incident_recording env now incident_id incident_type s = (Ok true, s1) →
  let vw := video_handle s incident_id in
  let aw := audio_handle s incident_id in
  video_buffer s1 = video_buffer s
  ∧ audio_buffer s1 = audio_buffer s
  ∧ incident_recordings s1 !! incident_id
    = Some (Recording incident_type now [] [] (incident_dir s incident_id)
              (Some vw) (Some aw))
  ∧ io_trace s1 = io_trace s ++ start_events s incident_id
  ∧ video_sink vw (start_events s incident_id) = []
  ∧ audio_sink aw (start_events s incident_id) = []
  ∧ ∀ env' frames chunks,
      no_failure env' →
      ∃ s2 s3 t,
        add_incident_frames env' incident_id frames s1 = (Ok tt, s2)
        ∧ add_incident_audios env' incident_id chunks s2 = (Ok tt, s3)
        ∧ io_trace s3 = io_trace s ++ t
        ∧ video_sink vw t = map snd frames
        ∧ audio_sink aw t = map (λ c, tobytes c.2) chunks.
Proof.
  intros [Hnone ->]%start_true_inv vw aw.
  split; [done|]. split; [done|]. split; [apply lookup_insert_eq|].
  split; [done|]. split; [done|]. split; [done|].
  intros env' frames chunks Hquiet. eexists _, _, _.
  split.
  { eapply add_incident_frames_run; [apply lookup_insert_eq|done|done]. }
  split.
  { eapply add_incident_audios_run; [apply lookup_insert_eq|done|done]. }
  simpl. split; [by rewrite <- !app_assoc|].
  rewrite !video_sink_app, !audio_sink_app.
  rewrite video_sink_writes, audio_sink_writes.
  rewrite video_sink_audio_writes, audio_sink_video_writes.
  by rewrite app_nil_r.
Qed.

(** C1, as stated, fails: the buffers of [preroll_state] hold a frame and a
    chunk captured before the start, the start succeeds, and after a live
    frame and a live chunk were added the sinks have received these two
    only. *)
Lemma preroll_never_reaches_sink :
  ∃ s1 s2 s3,
    items (video_buffer preroll_state) = [FrameData [1] 5]
    ∧ items (audio_buffer preroll_state) = [ChunkData [9] 5]
    ∧ start_incident_recording quiet 10 "inc1" "fight" preroll_state = (Ok true, s1)
    ∧ add_incident_frame quiet 11 "inc1" [2] s1 = (Ok tt, s2)
    ∧ add_incident_audio quiet 12 "inc1" [8] s2 = (Ok tt, s3)
    ∧ video_sink (video_handle preroll_state "inc1") (io_trace s3) = [[2]]
    ∧ audio_sink (audio_handle preroll_state "inc1") (io_trace s3) = [tobytes [8]].
Proof.
  eexists _, _, _.
  split; [by vm_compute|]. split; [by vm_compute|].
  split; [vm_compute; reflexivity|].
  split; [vm_compute; reflexivity|].
  split; [vm_compute; reflexivity|].
  split; by vm_compute.
Qed.

Lemma start_writes_no_preroll_witness :
  video_sink (video_handle preroll_state "inc1") (start_events preroll_state "inc1") = []
  ∧ audio_sink (audio_handle preroll_state "inc1") (start_events preroll_state "inc1") = [].
Proof.
  assert (start_incident_recording quiet 10 "inc1" "fight" preroll_state
          = (Ok true, run (start_incident_recording quiet 10 "inc1" "fight") preroll_state))
    as Hstart by (vm_compute; reflexivity).
  destruct (start_writes_no_preroll _ _ _ _ _ _ Hstart) as (_ & _ & _ & _ & Hv & Ha & _).
  split; [exact Hv | exact Ha].
Defined.

(** C4, as stated, fails: the frames of [out_of_order_state] were pushed
    with the time stamps 5 and 3, and a windowed read returns them in that
    order. *)
Lemma window_read_out_of_order :
  ∃ frames,
    get_video_buffer 10 (Some 10) out_of_order_state = (Ok frames, out_of_order_state)
    ∧ frames = [FrameData [] 5; FrameData [] 3]
    ∧ ¬ Sorted (λ a b, frame_timestamp a ≤ frame_timestamp b) frames.
Proof.
  eexists. split; [vm_compute; reflexivity|]. split; [done|].
  intros Hsorted. inversion Hsorted as [|? ? _ Hhd]; subst.
  inversion Hhd as [|? ? Hle]; subst. simpl in Hle. lia.
Qed.

Lemma window_read_filters_in_buffer_order_witness :
  ∃ frames,
    get_video_buffer 10 (Some 6) out_of_order_state = (Ok frames, out_of_order_state)
    ∧ frames = [FrameData [] 5].
Proof.
  destruct (window_read_filters_in_buffer_order out_of_order_state 10 (Some 6))
    as (frames & chunks & Hv & _ & Hf & _).
  exists frames. split; [exact Hv|]. rewrite Hf. vm_compute. reflexivity.
Defined.

(** ** Failures of the sinks *)

(** C2, as stated, fails: when [wave.open] raises in a start for "inc1",
    the start returns [False] and the entry made for "inc1" stays in the
    registry, so the next start for "inc1" is rejected although nothing
    fails in it. *)
Lemma failed_open_leaves_entry :
  ∃ s1 s2,
    incident_recordings bm0 !! "inc1" = None
    ∧ start_incident_recording audio_open_fails 10 "inc1" "fight" bm0 = (Ok false, s1)
    ∧ incident_recordings s1 !! "inc1"
      = Some (Recording "fight" 10 [] [] "backend/data/recordings/inc1"
                (Some (cv2_VideoWriter "backend/data/recordings/inc1/inc1_video.mp4"))
                None)
    ∧ start_incident_recording quiet 11 "inc1" "fight" s1 = (Ok false, s2)
    ∧ last (io_trace s2) = Some (Stdout (msg_already_in_progress "inc1")).
Proof.
  eexists _, _.
  split; [by vm_compute|].
  split; [vm_compute; reflexivity|].
  split; [by vm_compute|].
  split; [vm_compute; reflexivity|].
  by vm_compute.
Qed.

(** C2, as the code has it.  When the id has no entry, the directory is
    made and opening the video or the audio writer raises, the start returns
    [False], but the entry it stored before opening the writers stays in the
    registry, without an audio writer.  Every later start for the id is
    rejected and leaves the registry as it is, until a stop for the id
    removes the entry. *)
Theorem failed_sink_open_keeps_entry s env now incident_id incident_type :
  incident_recordings s !! incident_id = None →
  env (mkdir (incident_dir s incident_id)) = false →
  env (open_video s incident_id) = true
  ∨ env (wave_open (audio_path s incident_id)) = true →
  ∃ s1 r,
    start_incident_recording env now incident_id incident_type s = (Ok false, s1)
    ∧ incident_recordings s1 = <[incident_id := r]> (incident_recordings s)
    ∧ type r = incident_type ∧ start_time r = now
    ∧ video_frames r = [] ∧ audio_chunks r = []
    ∧ directory r = incident_dir s incident_id
    ∧ audio_writer r = None
    ∧ (∀ env' now' type',
         ∃ s2, start_incident_recording env' now' incident_id type' s1 = (Ok false, s2)
           ∧ incident_recordings s2 = incident_recordings s1)
    ∧ (∀ env' now',
         no_failure env' →
         ∃ md s2, stop_incident_recording env' now' incident_id s1 = (Ok (Some md), s2)
           ∧ incident_recordings s2 !! incident_id = None).
Proof.
  intros Hnone Hmk Hfail.
  destruct (env (open_video s incident_id)) eqn:Hvo.
  - eexists _, _. split; [by apply start_video_open_fails|].
    split; [done|]. repeat (split; [done|]). split.
    + intros env' now' type'. eexists.
      split; [eapply start_already_active; apply lookup_insert_eq|done].
    + intros env' now' Hquiet. eexists _, _.
      split; [eapply stop_ok; [apply lookup_insert_eq|by intros|by intros|done]|].
      apply lookup_delete_eq.
  - destruct Hfail as [?|Hao]; [done|].
    eexists _, _. split; [by apply start_audio_open_fails|].
    split; [done|]. repeat (split; [done|]). split.
    + intros env' now' type'. eexists.
      split; [eapply start_already_active; apply lookup_insert_eq|done].
    + intros env' now' Hquiet. eexists _, _.
      split; [eapply stop_ok; [apply lookup_insert_eq|by intros|by intros|done]|].
      apply lookup_delete_eq.
Qed.

Lemma failed_sink_open_keeps_entry_witness :
  ∃ s1 r,
    start_incident_recording audio_open_fails 10 "inc1" "fight" bm0 = (Ok false, s1)
    ∧ incident_recordings s1 = <[ "inc1" := r ]> (incident_recordings bm0)
    ∧ audio_writer r = None.
Proof.
  destruct (failed_sink_open_keeps_entry bm0 audio_open_fails 10 "inc1" "fight")
    as (s1 & r & Hstart & Hregs & _ & _ & _ & _ & _ & Haw & _).
  - vm_compute. reflexivity.
  - reflexivity.
  - right. reflexivity.
  - exists s1, r. split; [exact Hstart|]. split; [exact Hregs | exact Haw].
Defined.

Lemma release_calls_stop_events incident_id r now v :
  video_writer r = Some v → release_calls v (stop_events incident_id r now) = 1%nat.
Proof.
  intros Hv. unfold release_calls, stop_events, release_events, close_events.
  rewrite Hv. destruct (audio_writer r); simpl; by rewrite decide_True.
Qed.

Lemma close_calls_stop_events incident_id r now w :
  audio_writer r = Some w → close_calls w (stop_events incident_id r now) = 1%nat.
Proof.
  intros Hw. unfold close_calls, stop_events, release_events, close_events.
  rewrite Hw. destruct (video_writer r); simpl; by rewrite decide_True.
Qed.

Lemma metadata_written_stop_events incident_id r now :
  metadata_written (stop_events incident_id r now)
  = [(metadata_path r incident_id, metadata_of incident_id r now)].
Proof.
  unfold metadata_written, stop_events, release_events, close_events.
  by destruct (video_writer r), (audio_writer r).
Qed.

(** C9, as stated, fails: when [release] raises in the stop of the
    recording of [recording_state], the stop returns [None], the audio
    writer is not closed, no metadata is written and the entry stays; and
    when [close] raises, the stop returns [None] as well, with no metadata
    and the entry still there. *)
Lemma close_failure_aborts_stop :
  ∃ s1 s2,
    incident_recordings recording_state !! "inc1"
    = Some (Recording "fight" 10 [] [] "backend/data/recordings/inc1"
              (Some (cv2_VideoWriter "backend/data/recordings/inc1/inc1_video.mp4"))
              (Some (wave_Wave_write "backend/data/recordings/inc1/inc1_audio.wav")))
    ∧ stop_incident_recording release_fails 20 "inc1" recording_state = (Ok None, s1)
    ∧ incident_recordings s1 = incident_recordings recording_state
    ∧ close_calls (wave_Wave_write "backend/data/recordings/inc1/inc1_audio.wav")
        (io_trace s1) = 0%nat
    ∧ metadata_written (io_trace s1) = []
    ∧ stop_incident_recording close_fails 20 "inc1" recording_state = (Ok None, s2)
    ∧ incident_recordings s2 = incident_recordings recording_state
    ∧ metadata_written (io_trace s2) = [].
Proof.
  eexists _, _.
  split; [by vm_compute|].
  split; [vm_compute; reflexivity|].
  split; [by vm_compute|]. split; [by vm_compute|]. split; [by vm_compute|].
  split; [vm_compute; reflexivity|].
  split; by vm_compute.
Qed.

(** C9, as the code has it.  A stop for an id with an entry calls
    [release] on the video writer and then [close] on the audio writer.
    When neither these calls nor the writing of the metadata file raise,
    each writer the entry holds is closed exactly once, the metadata is
    built with [duration = now - start_time], written to the incident
    directory and returned, and the entry is removed.  When a close call
    raises, the failure is printed and the finalization is given up: the
    stop returns [None], no metadata is written and the entry stays in the
    registry; after a failed [release] the audio writer is not closed. *)
Theorem stop_closes_then_finalises s env now incident_id r :
  incident_recordings s !! incident_id = Some r →
  let md := metadata_of incident_id r now in
  ((∀ v, video_writer r = Some v → env (VideoWriter_release v) = false) →
   (∀ w, audio_writer r = Some w → env (Wave_close w) = false) →
   env (json_dump (metadata_path r incident_id) md) = false →
   ∃ s1,
     stop_incident_recording env now incident_id s = (Ok (Some md), s1)
     ∧ md_duration md = now - start_time r
     ∧ io_trace s1 = io_trace s ++ stop_events incident_id r now
     ∧ (∀ v, video_writer r = Some v →
             release_calls v (stop_events incident_id r now) = 1%nat)
     ∧ (∀ w, audio_writer r = Some w →
             close_calls w (stop_events incident_id r now) = 1%nat)
     ∧ metadata_written (stop_events incident_id r now)
       = [(metadata_path r incident_id, md)]
     ∧ incident_recordings s1 = delete incident_id (incident_recordings s))
  ∧ (∀ v, video_writer r = Some v →
          env (VideoWriter_release v) = true →
          ∃ s1 t,
            stop_incident_recording env now incident_id s = (Ok None, s1)
            ∧ io_trace s1 = io_trace s ++ t
            ∧ last t = Some (Stdout (msg_error_stopping (IOFailure (VideoWriter_release v))))
            ∧ release_calls v t = 1%nat
            ∧ (∀ w, close_calls w t = 0%nat)
            ∧ metadata_written t = []
            ∧ incident_recordings s1 = incident_recordings s)
  ∧ (∀ w, (∀ v, video_writer r = Some v → env (VideoWriter_release v) = false) →
          audio_writer r = Some w →
          env (Wave_close w) = true →
          ∃ s1 t,
            stop_incident_recording env now incident_id s = (Ok None, s1)
            ∧ io_trace s1 = io_trace s ++ t
            ∧ last t = Some (Stdout (msg_error_stopping (IOFailure (Wave_close w))))
            ∧ (∀ v, video_writer r = Some v → release_calls v t = 1%nat)
            ∧ close_calls w t = 1%nat
            ∧ metadata_written t = []
            ∧ incident_recordings s1 = incident_recordings s).
Proof.
  intros Hr md. split; [|split].
  - intros Hv Hw Hdump. eexists. split; [by apply stop_ok|].
    split; [done|]. split; [done|].
    split; [intros v ?; by apply release_calls_stop_events|].
    split; [intros w ?; by apply close_calls_stop_events|].
    split; [apply metadata_written_stop_events|done].
  - intros v Hv Hfail. eexists _, _.
    split; [by eapply stop_release_fails|].
    split; [done|]. split; [done|].
    split; [unfold release_calls; simpl; by rewrite decide_True|].
    done.
  - intros w Hv Hw Hfail. eexists _, _.
    split; [by eapply stop_close_fails|].
    split; [done|].
    unfold release_events, release_calls, close_calls, metadata_written.
    destruct (video_writer r) as [v|]; simpl.
    + split; [done|]. split; [intros ? [= <-]; by rewrite decide_True|].
      split; [by rewrite decide_True|done].
    + split; [done|]. split; [done|]. split; [by rewrite decide_True|done].
Qed.

Lemma stop_closes_then_finalises_witness :
  ∃ s1,
    stop_incident_recording quiet 20 "inc1" recording_state
    = (Ok (Some (Metadata "inc1" "fight" 10 20 10 0 0 "backend/data/recordings/inc1")), s1)
    ∧ incident_recordings s1 = delete "inc1" (incident_recordings recording_state).
Proof.
  destruct (stop_closes_then_finalises recording_state quiet 20 "inc1"
              (Recording "fight" 10 [] [] "backend/data/recordings/inc1"
                 (Some (cv2_VideoWriter "backend/data/recordings/inc1/inc1_video.mp4"))
                 (Some (wave_Wave_write "backend/data/recordings/inc1/inc1_audio.wav"))))
    as [Hok _].
  - vm_compute. reflexivity.
  - destruct Hok as (s1 & Hstop & _ & _ & _ & _ & _ & Hregs); try reflexivity.
    exists s1. split; [exact Hstop | exact Hregs].
Defined.

(** ** The theorems at concrete inputs *)

Lemma window_read_idempotent_witness :
  ∃ frames,
    get_video_buffer 10 (Some 6) out_of_order_state = (Ok frames, out_of_order_state)
    ∧ get_video_buffer 12 (Some 8) out_of_order_state = (Ok frames, out_of_order_state).
Proof.
  destruct (window_read_idempotent out_of_order_state 10 (Some 6) 12 (Some 8)) as [Hv _].
  assert (get_video_buffer 10 (Some 6) out_of_order_state
          = (Ok [FrameData [] 5], out_of_order_state)) as Hfirst
    by (vm_compute; reflexivity).
  destruct (Hv eq_refl _ _ Hfirst) as [_ Hsecond].
  exists [FrameData [] 5]. split; [exact Hfirst | exact Hsecond].
Defined.




Lemma push_visible_only_after_writer_witness :
  ∃ s1 s2,
    add_video_frame 7 [4] None out_of_order_state = (Ok tt, s1)
    ∧ video_buffer s1 = video_buffer out_of_order_state
    ∧ process_video_buffer (length (queue (video_queue s1))) s1 = (Ok tt, s2)
    ∧ last (items (video_buffer s2)) = Some (FrameData [4] 7).
Proof.
  destruct (push_visible_only_after_writer out_of_order_state 7 [4] None)
    as [(s1 & Hpush & Hbuf & _ & _ & _ & Hvisible) _].
  destruct Hvisible as [_ Hwriter].
  - left. vm_compute. discriminate.
  - destruct Hwriter as (s2 & Hpasses & Hlast & _).
    + reflexivity.
    + vm_compute. lia.
    + vm_compute. lia.
    + exists s1, s2. split; [exact Hpush|]. split; [exact Hbuf|].
      split; [exact Hpasses | exact Hlast].
Defined.

(** * Further properties of the module *)

(** ** What the recording methods touch *)

Lemma set_incident_recordings_same s :
  set_incident_recordings (incident_recordings s) s = s.
Proof. by destruct s. Qed.

Lemma add_incident_audio_no_writer s env now incident_id audio_data r :
  incident_recordings s !! incident_id = Some r →
  audio_writer r = None →
  add_incident_audio env now incident_id audio_data s
  = (Ok tt,
     set_incident_recordings
       (<[incident_id := append_audio_chunk (ChunkData (copy audio_data) now) r]>
          (incident_recordings s)) s).
Proof.
  intros Hr Hw. unfold add_incident_audio, update_recording. unfold_monad. simpl.
  rewrite Hr, Hw. simpl. rewrite Hr. by destruct s.
Qed.

Lemma set_io_trace_nil s : set_io_trace (io_trace s ++ []) s = s.
Proof. rewrite app_nil_r. by destruct s. Qed.

Lemma set_io_trace_nil_r s regs :
  set_io_trace (io_trace s ++ []) (set_incident_recordings regs s)
  = set_incident_recordings regs s.
Proof. rewrite app_nil_r. by destruct s. Qed.

Lemma touches_only_intro {A} incident_id (m : M A) s a regs' t :
  m s = (Ok a, set_io_trace (io_trace s ++ t) (set_incident_recordings regs' s)) →
  (∀ other, other ≠ incident_id → regs' !! other = incident_recordings s !! other) →
  touches_only incident_id m s.
Proof. intros Hm Hother. by exists a, regs', t. Qed.

Lemma touches_only_trace {A} incident_id (m : M A) s a t :
  m s = (Ok a, set_io_trace (io_trace s ++ t) s) →
  touches_only incident_id m s.
Proof.
  intros Hm. apply (touches_only_intro _ _ _ a (incident_recordings s) t); [|done].
  by rewrite set_incident_recordings_same.
Qed.

Lemma touches_only_insert {A} incident_id (m : M A) s a r t :
  m s = (Ok a, set_io_trace (io_trace s ++ t)
                 (set_incident_recordings (<[incident_id := r]> (incident_recordings s)) s)) →
  touches_only incident_id m s.
Proof.
  intros Hm. eapply touches_only_intro; [exact Hm|].
  intros other Hne. by rewrite lookup_insert_ne.
Qed.

Lemma start_touches_only s env now incident_id incident_type :
  touches_only incident_id (start_incident_recording env now incident_id incident_type) s.
Proof.
  destruct (incident_recordings s !! incident_id) as [r|] eqn:Hr.
  { eapply touches_only_trace. by apply (start_already_active _ _ _ _ _ r). }
  destruct (env (mkdir (incident_dir s incident_id))) eqn:Hmk.
  { eapply touches_only_trace. by apply start_mkdir_fails. }
  destruct (env (open_video s incident_id)) eqn:Hvo.
  { eapply touches_only_insert. by apply start_video_open_fails. }
  destruct (env (wave_open (audio_path s incident_id))) eqn:Hao.
  { eapply touches_only_insert. by apply start_audio_open_fails. }
  eapply touches_only_insert. by apply start_ok.
Qed.

Lemma add_incident_frame_touches_only s env now incident_id frame :
  touches_only incident_id (add_incident_frame env now incident_id frame) s.
Proof.
  destruct (incident_recordings s !! incident_id) as [r|] eqn:Hr.
  - destruct (video_writer r) as [w|] eqn:Hw.
    + destruct (env (VideoWriter_write w frame)) eqn:Hwrite.
      * eapply touches_only_trace. by eapply add_incident_frame_write_fails.
      * eapply touches_only_insert. by eapply add_incident_frame_written.
    + eapply (touches_only_insert _ _ _ _ _ []).
      rewrite set_io_trace_nil_r. by eapply add_incident_frame_no_writer.
  - eapply (touches_only_trace _ _ _ _ []).
    rewrite set_io_trace_nil. by apply add_incident_frame_unknown.
Qed.

Lemma add_incident_audio_touches_only s env now incident_id audio_data :
  touches_only incident_id (add_incident_audio env now incident_id audio_data) s.
Proof.
  destruct (incident_recordings s !! incident_id) as [r|] eqn:Hr.
  - destruct (audio_writer r) as [w|] eqn:Hw.
    + destruct (env (Wave_writeframes w (tobytes audio_data))) eqn:Hwrite.
      * eapply touches_only_trace. by eapply add_incident_audio_write_fails.
      * eapply touches_only_insert. by eapply add_incident_audio_written.
    + eapply (touches_only_insert _ _ _ _ _ []).
      rewrite set_io_trace_nil_r. by eapply add_incident_audio_no_writer.
  - eapply (touches_only_trace _ _ _ _ []).
    rewrite set_io_trace_nil. by apply add_incident_audio_unknown.
Qed.

(** The outcomes of a stop for an id that has an entry: the first of the
    three external calls that raises decides. *)
Lemma stop_cases s env now incident_id r :
  incident_recordings s !! incident_id = Some r →
  (∃ t, stop_incident_recording env now incident_id s
        = (Ok None, set_io_trace (io_trace s ++ t) s)
        ∧ metadata_written t = [])
  ∨ stop_incident_recording env now incident_id s
    = (Ok (Some (metadata_of incident_id r now)),
       set_io_trace (io_trace s ++ stop_events incident_id r now)
         (set_incident_recordings (delete incident_id (incident_recordings s)) s)).
Proof.
  intros Hr.
  destruct (video_writer r) as [v|] eqn:Hv.
  - destruct (env (VideoWriter_release v)) eqn:Hrel.
    { left. eexists. split; [by eapply stop_release_fails|done]. }
    destruct (audio_writer r) as [w|] eqn:Hw.
    + destruct (env (Wave_close w)) eqn:Hclose.
      { left. eexists. split.
        - eapply stop_close_fails; [done| |done|done]. intros ? ?; congruence.
        - unfold release_events. by rewrite Hv. }
      destruct (env (json_dump (metadata_path r incident_id)
                       (metadata_of incident_id r now))) eqn:Hdump.
      { left. eexists. split.
        - eapply stop_dump_fails; [done| | |done]; intros ? ?; congruence.
        - unfold release_events, close_events. by rewrite Hv, Hw. }
      right. eapply stop_ok; [done| | |done]; intros ? ?; congruence.
    + destruct (env (json_dump (metadata_path r incident_id)
                       (metadata_of incident_id r now))) eqn:Hdump.
      { left. eexists. split.
        - eapply stop_dump_fails; [done| | |done]; [intros ? ?; congruence|intros ? ?; congruence].
        - unfold release_events, close_events. by rewrite Hv, Hw. }
      right. eapply stop_ok; [done| | |done]; [intros ? ?; congruence|intros ? ?; congruence].
  - destruct (audio_writer r) as [w|] eqn:Hw.
    + destruct (env (Wave_close w)) eqn:Hclose.
      { left. eexists. split.
        - eapply stop_close_fails; [done| |done|done]. intros ? ?; congruence.
        - unfold release_events. by rewrite Hv. }
      destruct (env (json_dump (metadata_path r incident_id)
                       (metadata_of incident_id r now))) eqn:Hdump.
      { left. eexists. split.
        - eapply stop_dump_fails; [done| | |done]; [intros ? ?; congruence|intros ? ?; congruence].
        - unfold release_events, close_events. by rewrite Hv, Hw. }
      right. eapply stop_ok; [done| | |done]; [intros ? ?; congruence|intros ? ?; congruence].
    + destruct (env (json_dump (metadata_path r incident_id)
                       (metadata_of incident_id r now))) eqn:Hdump.
      { left. eexists. split.
        - eapply stop_dump_fails; [done| | |done]; [intros ? ?; congruence|intros ? ?; congruence].
        - unfold release_events, close_events. by rewrite Hv, Hw. }
      right. eapply stop_ok; [done| | |done]; [intros ? ?; congruence|intros ? ?; congruence].
Qed.

Lemma stop_touches_only s env now incident_id :
  touches_only incident_id (stop_incident_recording env now incident_id) s.
Proof.
  destruct (incident_recordings s !! incident_id) as [r|] eqn:Hr.
  - destruct (stop_cases s env now incident_id r Hr) as [(t & Hstop & _)|Hstop].
    + by eapply touches_only_trace.
    + eapply touches_only_intro; [exact Hstop|].
      intros other Hne. by rewrite lookup_delete_ne.
  - eapply (touches_only_trace _ _ _ _ []).
    rewrite set_io_trace_nil. by apply stop_unknown.
Qed.

(** X1. Each of the four recording methods returns a value whatever
    external call fails (no exception reaches the caller), leaves the ring
    buffers, the queues and the running flag as they were, leaves the
    registry entries of all other ids untouched, and only adds to the
    trace of external calls. *)
Theorem recording_methods_touch_only_their_entry s env now incident_id incident_type
    payload :
  touches_only incident_id (start_incident_recording env now incident_id incident_type) s
  ∧ touches_only incident_id (add_incident_frame env now incident_id payload) s
  ∧ touches_only incident_id (add_incident_audio env now incident_id payload) s
  ∧ touches_only incident_id (stop_incident_recording env now incident_id) s.
Proof.
  split; [apply start_touches_only|].
  split; [apply add_incident_frame_touches_only|].
  split; [apply add_incident_audio_touches_only | apply stop_touches_only].
Qed.

(** ** Status of a recording *)

Lemma get_incident_recording_status_known s now incident_id r :
  incident_recordings s !! incident_id = Some r →
  get_incident_recording_status now incident_id s
  = (Ok (Some (RecordingStatus incident_id (type r) (start_time r) (now - start_time r)
                 (length (video_frames r)) (length (audio_chunks r)) true)), s).
Proof.
  intros Hr. unfold get_incident_recording_status. unfold_monad. simpl. by rewrite Hr.
Qed.

Lemma get_incident_recording_status_unknown s now incident_id :
  incident_recordings s !! incident_id = None →
  get_incident_recording_status now incident_id s = (Ok None, s).
Proof.
  intros Hr. unfold get_incident_recording_status. unfold_monad. simpl. by rewrite Hr.
Qed.

Lemma stop_some_inv s env now incident_id md s1 :
  stop_incident_recording env now incident_id s = (Ok (Some md), s1) →
  ∃ r, incident_recordings s !! incident_id = Some r
    ∧ md = metadata_of incident_id r now
    ∧ s1 = set_io_trace (io_trace s ++ stop_events incident_id r now)
             (set_incident_recordings (delete incident_id (incident_recordings s)) s).
Proof.
  intros Hstop.
  destruct (incident_recordings s !! incident_id) as [r|] eqn:Hr.
  - exists r. split; [done|].
    destruct (stop_cases s env now incident_id r Hr) as [(t & Hfail & _)|Hok].
    + rewrite Hfail in Hstop. done.
    + rewrite Hok in Hstop. by injection Hstop as <- <-.
  - rewrite stop_unknown in Hstop by done. done.
Qed.

(** X2. The status of a recording read at time [now] and the metadata a
    successful stop at the same time returns agree on the id, the type,
    the start time, the duration and the two counts; reading the status
    changes nothing. *)
Theorem status_agrees_with_stop s env now incident_id md s1 :
  stop_incident_recording env now incident_id s = (Ok (Some md), s1) →
  ∃ st,
    get_incident_recording_status now incident_id s = (Ok (Some st), s)
    ∧ rs_incident_id st = md_incident_id md
    ∧ rs_type st = md_type md
    ∧ rs_start_time st = md_start_time md
    ∧ rs_duration st = md_duration md
    ∧ rs_video_frames_count st = md_video_frames_count md
    ∧ rs_audio_chunks_count st = md_audio_chunks_count md
    ∧ rs_is_active st = true.
Proof.
  intros (r & Hr & -> & _)%stop_some_inv.
  eexists. split; [by apply get_incident_recording_status_known|]. done.
Qed.

Lemma status_agrees_with_stop_witness :
  ∃ st,
    get_incident_recording_status 20 "inc1" recording_state = (Ok (Some st), recording_state)
    ∧ rs_duration st = 10 ∧ rs_video_frames_count st = 0%nat.
Proof.
  assert (∃ md s1, stop_incident_recording quiet 20 "inc1" recording_state
                   = (Ok (Some md), s1) ∧ md_duration md = 10
                     ∧ md_video_frames_count md = 0%nat)
    as (md & s1 & Hstop & Hd & Hn) by (eexists _, _; vm_compute; done).
  destruct (status_agrees_with_stop _ _ _ _ _ _ Hstop)
    as (st & Hst & _ & _ & _ & Hdur & Hcount & _).
  exists st. split; [exact Hst|]. split; [by rewrite Hdur | by rewrite Hcount].
Defined.

(** X3. After a stop that returned metadata the id is unknown again: its
    status is [None], frames and chunks added for it are dropped without
    any external call, and another stop returns [None] and changes
    nothing. *)
Theorem after_stop_id_is_unknown s env now incident_id md s1 env' now' payload :
  stop_incident_recording env now incident_id s = (Ok (Some md), s1) →
  get_incident_recording_status now' incident_id s1 = (Ok None, s1)
  ∧ add_incident_frame env' now' incident_id payload s1 = (Ok tt, s1)
  ∧ add_incident_audio env' now' incident_id payload s1 = (Ok tt, s1)
  ∧ stop_incident_recording env' now' incident_id s1 = (Ok None, s1).
Proof.
  intros (r & Hr & -> & ->)%stop_some_inv.
  assert (incident_recordings
            (set_io_trace (io_trace s ++ stop_events incident_id r now)
               (set_incident_recordings (delete incident_id (incident_recordings s)) s))
          !! incident_id = None) as Hgone by apply lookup_delete_eq.
  split; [by apply get_incident_recording_status_unknown|].
  split; [by apply add_incident_frame_unknown|].
  split; [by apply add_incident_audio_unknown | by apply stop_unknown].
Qed.

Lemma after_stop_id_is_unknown_witness :
  ∃ s1,
    (stop_incident_recording quiet 20 "inc1" recording_state).2 = s1
    ∧ add_incident_frame quiet 21 "inc1" [5] s1 = (Ok tt, s1)
    ∧ stop_incident_recording quiet 22 "inc1" s1 = (Ok None, s1).
Proof.
  assert (∃ md s1, stop_incident_recording quiet 20 "inc1" recording_state
                   = (Ok (Some md), s1))
    as (md & s1 & Hstop) by (eexists _, _; vm_compute; done).
  destruct (after_stop_id_is_unknown _ _ _ _ _ _ quiet 21 [5] Hstop) as (_ & Hf & _ & _).
  destruct (after_stop_id_is_unknown _ _ _ _ _ _ quiet 22 [5] Hstop) as (_ & _ & _ & Hs).
  exists s1. split; [by rewrite Hstop|]. split; [exact Hf | exact Hs].
Defined.

(** X4. An id can be recorded again after its stop: a start without
    failures then returns [True] and stores a fresh entry with empty frame
    and chunk lists, in the directory of the first recording and with
    writers opened on the same two file names, which the first recording
    wrote. *)
Theorem restart_after_stop s env0 now0 incident_id type0 s1 env1 now1 md s2
    env2 now2 type2 :
  start_incident_recording env0 now0 incident_id type0 s = (Ok true, s1) →
  stop_incident_recording env1 now1 incident_id s1 = (Ok (Some md), s2) →
  no_failure env2 →
  ∃ s3,
    start_incident_recording env2 now2 incident_id type2 s2 = (Ok true, s3)
    ∧ incident_recordings s1 !! incident_id
      = Some (Recording type0 now0 [] [] (md_directory md)
                (Some (video_handle s incident_id)) (Some (audio_handle s incident_id)))
    ∧ incident_recordings s3 !! incident_id
      = Some (Recording type2 now2 [] [] (md_directory md)
                (Some (video_handle s incident_id)) (Some (audio_handle s incident_id)))
    ∧ io_trace s3 = io_trace s2 ++ start_events s incident_id.
Proof.
  intros [Hnone ->]%start_true_inv (r & Hr & -> & ->)%stop_some_inv Hquiet.
  simpl in Hr. rewrite lookup_insert_eq in Hr. injection Hr as <-.
  eexists. split.
  { apply start_ok; [apply lookup_delete_eq|done..]. }
  split; [apply lookup_insert_eq|]. split; [apply lookup_insert_eq|done].
Qed.

Lemma restart_after_stop_witness :
  ∃ s2 s3,
    (stop_incident_recording quiet 20 "inc1" recording_state).2 = s2
    ∧ start_incident_recording quiet 30 "inc1" "theft" s2 = (Ok true, s3)
    ∧ incident_recordings s3 !! "inc1"
      = Some (Recording "theft" 30 [] [] "backend/data/recordings/inc1"
                (Some (video_handle bm0 "inc1")) (Some (audio_handle bm0 "inc1"))).
Proof.
  assert (start_incident_recording quiet 10 "inc1" "fight" bm0 = (Ok true, recording_state))
    as Hstart by (vm_compute; reflexivity).
  assert (∃ s2, stop_incident_recording quiet 20 "inc1" recording_state
                = (Ok (Some (Metadata "inc1" "fight" 10 20 10 0 0
                               "backend/data/recordings/inc1")), s2))
    as (s2 & Hstop) by (eexists; vm_compute; reflexivity).
  destruct (restart_after_stop _ _ _ _ _ _ _ _ _ _ quiet 30 "theft" Hstart Hstop)
    as (s3 & Hagain & _ & Hentry & _).
  - intros op. reflexivity.
  - exists s2, s3. split; [by rewrite Hstop|]. split; [exact Hagain | exact Hentry].
Defined.

(** X5. When creating the incident directory fails, the start returns
    [False] and stores nothing: the registry is as before, and a later
    start for the id whose external calls succeed returns [True]. *)
Theorem failed_mkdir_stores_nothing s env now incident_id incident_type :
  incident_recordings s !! incident_id = None →
  env (mkdir (incident_dir s incident_id)) = true →
  ∃ s1,
    start_incident_recording env now incident_id incident_type s = (Ok false, s1)
    ∧ incident_recordings s1 = incident_recordings s
    ∧ (∀ op, Call op false ∈ io_trace s1 → Call op false ∈ io_trace s)
    ∧ ∀ env' now' type',
        no_failure env' →
        ∃ s2, start_incident_recording env' now' incident_id type' s1 = (Ok true, s2).
Proof.
  intros Hnone Hmk. eexists. split; [by apply start_mkdir_fails|].
  split; [done|]. split.
  - intros op. simpl. rewrite !elem_of_app, !elem_of_cons, elem_of_nil.
    intros [?|[?|[?|[]]]]; by simplify_eq.
  - intros env' now' type' Hquiet. eexists. by apply start_ok.
Qed.

Lemma failed_mkdir_stores_nothing_witness :
  ∃ s1 s2,
    start_incident_recording (λ op, match op with mkdir _ => true | _ => false end)
      10 "inc1" "fight" bm0 = (Ok false, s1)
    ∧ incident_recordings s1 = incident_recordings bm0
    ∧ start_incident_recording quiet 11 "inc1" "fight" s1 = (Ok true, s2).
Proof.
  destruct (failed_mkdir_stores_nothing bm0
              (λ op, match op with mkdir _ => true | _ => false end) 10 "inc1" "fight")
    as (s1 & Hfail & Hregs & _ & Hretry).
  - vm_compute. reflexivity.
  - reflexivity.
  - destruct (Hretry quiet 11 "fight") as (s2 & Hok); [intros op; reflexivity|].
    exists s1, s2. split; [exact Hfail|]. split; [exact Hregs | exact Hok].
Defined.

(** ** Samples stored and samples written *)

Lemma add_incident_frames_any env incident_id calls s r w :
  incident_recordings s !! incident_id = Some r →
  video_writer r = Some w →
  ∃ r' t,
    add_incident_frames env incident_id calls s
    = (Ok tt, set_io_trace (io_trace s ++ t)
                (set_incident_recordings (<[incident_id := r']> (incident_recordings s)) s))
    ∧ map frame (video_frames r') = map frame (video_frames r) ++ video_sink w t
    ∧ type r' = type r ∧ start_time r' = start_time r
    ∧ audio_chunks r' = audio_chunks r ∧ directory r' = directory r
    ∧ video_writer r' = Some w ∧ audio_writer r' = audio_writer r.
Proof.
  revert s r. induction calls as [|[now image] calls IH]; intros s r Hr Hw.
  - exists r, []. simpl. unfold_monad.
    rewrite insert_id, set_io_trace_nil_r, set_incident_recordings_same by done.
    by rewrite app_nil_r.
  - simpl. unfold mbind, M_bind.
    destruct (env (VideoWriter_write w image)) eqn:Hwrite.
    + rewrite (add_incident_frame_write_fails _ _ _ _ _ r w) by done.
      edestruct (IH (set_io_trace
                       (io_trace s ++ [Call (VideoWriter_write w image) true;
                                       Stdout (msg_error_adding_frame
                                                 (IOFailure (VideoWriter_write w image)))]) s)
                   r) as (r' & t & Hrun & Hframes & Hrest); [done..|].
      exists r', ([Call (VideoWriter_write w image) true;
                   Stdout (msg_error_adding_frame (IOFailure (VideoWriter_write w image)))]
                  ++ t).
      split; [|done].
      rewrite Hrun. unfold set_io_trace, set_incident_recordings. simpl.
      by rewrite <- !app_assoc.
    + rewrite (add_incident_frame_written _ _ _ _ _ r w) by done.
      edestruct (IH (set_io_trace (io_trace s ++ [Call (VideoWriter_write w image) false])
                       (set_incident_recordings
                          (<[incident_id := append_video_frame (FrameData (copy image) now) r]>
                             (incident_recordings s)) s))
                   (append_video_frame (FrameData (copy image) now) r))
        as (r' & t & Hrun & Hframes & Hrest); [apply lookup_insert_eq|done|].
      exists r', ([Call (VideoWriter_write w image) false] ++ t).
      split; [|split; [|done]].
      * rewrite Hrun. unfold set_io_trace, set_incident_recordings. simpl.
        by rewrite insert_insert_eq, <- !app_assoc.
      * rewrite Hframes. simpl. rewrite map_app. simpl.
        unfold video_sink. simpl. rewrite decide_True by done.
        by rewrite <- app_assoc.
Qed.

Lemma add_incident_audios_any env incident_id calls s r w :
  incident_recordings s !! incident_id = Some r →
  audio_writer r = Some w →
  ∃ r' t,
    add_incident_audios env incident_id calls s
    = (Ok tt, set_io_trace (io_trace s ++ t)
                (set_incident_recordings (<[incident_id := r']> (incident_recordings s)) s))
    ∧ map (λ c, tobytes (audio c)) (audio_chunks r')
      = map (λ c, tobytes (audio c)) (audio_chunks r) ++ audio_sink w t
    ∧ type r' = type r ∧ start_time r' = start_time r
    ∧ video_frames r' = video_frames r ∧ directory r' = directory r
    ∧ video_writer r' = video_writer r ∧ audio_writer r' = Some w.
Proof.
  revert s r. induction calls as [|[now data] calls IH]; intros s r Hr Hw.
  - exists r, []. simpl. unfold_monad.
    rewrite insert_id, set_io_trace_nil_r, set_incident_recordings_same by done.
    by rewrite app_nil_r.
  - simpl. unfold mbind, M_bind.
    destruct (env (Wave_writeframes w (tobytes data))) eqn:Hwrite.
    + rewrite (add_incident_audio_write_fails _ _ _ _ _ r w) by done.
      edestruct (IH (set_io_trace
                       (io_trace s ++ [Call (Wave_writeframes w (tobytes data)) true;
                                       Stdout (msg_error_adding_audio
                                                 (IOFailure (Wave_writeframes w
                                                               (tobytes data))))]) s)
                   r) as (r' & t & Hrun & Hchunks & Hrest); [done..|].
      exists r', ([Call (Wave_writeframes w (tobytes data)) true;
                   Stdout (msg_error_adding_audio
                             (IOFailure (Wave_writeframes w (tobytes data))))]
                  ++ t).
      split; [|done].
      rewrite Hrun. unfold set_io_trace, set_incident_recordings. simpl.
      by rewrite <- !app_assoc.
    + rewrite (add_incident_audio_written _ _ _ _ _ r w) by done.
      edestruct (IH (set_io_trace (io_trace s ++ [Call (Wave_writeframes w (tobytes data)) false])
                       (set_incident_recordings
                          (<[incident_id := append_audio_chunk (ChunkData (copy data) now) r]>
                             (incident_recordings s)) s))
                   (append_audio_chunk (ChunkData (copy data) now) r))
        as (r' & t & Hrun & Hchunks & Hrest); [apply lookup_insert_eq|done|].
      exists r', ([Call (Wave_writeframes w (tobytes data)) false] ++ t).
      split; [|split; [|done]].
      * rewrite Hrun. unfold set_io_trace, set_incident_recordings. simpl.
        by rewrite insert_insert_eq, <- !app_assoc.
      * rewrite Hchunks. simpl. rewrite map_app. simpl.
        unfold audio_sink. simpl. rewrite decide_True by done.
        by rewrite <- app_assoc.
Qed.

(** X6. Whatever writes fail, the frames an entry stores and the frames its
    video writer accepted stay in step: after any sequence of
    [add_incident_frame] calls for an id whose entry holds a video writer,
    the frames added to the entry are exactly the images the writer
    accepted during these calls, in the same order.  A frame whose write
    raised is neither stored nor counted.  The same holds for
    [add_incident_audio] and the audio writer. *)
Theorem stored_samples_are_the_accepted_ones s env incident_id calls r :
  incident_recordings s !! incident_id = Some r →
  (∀ w, video_writer r = Some w →
        ∃ s' r' t,
          add_incident_frames env incident_id calls s = (Ok tt, s')
          ∧ incident_recordings s' !! incident_id = Some r'
          ∧ io_trace s' = io_trace s ++ t
          ∧ map frame (video_frames r') = map frame (video_frames r) ++ video_sink w t
          ∧ length (video_frames r')
            = (length (video_frames r) + length (video_sink w t))%nat
          ∧ audio_chunks r' = audio_chunks r)
  ∧ (∀ w, audio_writer r = Some w →
          ∃ s' r' t,
            add_incident_audios env incident_id calls s = (Ok tt, s')
            ∧ incident_recordings s' !! incident_id = Some r'
            ∧ io_trace s' = io_trace s ++ t
            ∧ map (λ c, tobytes (audio c)) (audio_chunks r')
              = map (λ c, tobytes (audio c)) (audio_chunks r) ++ audio_sink w t
            ∧ length (audio_chunks r')
              = (length (audio_chunks r) + length (audio_sink w t))%nat
            ∧ video_frames r' = video_frames r).
Proof.
  intros Hr. split; intros w Hw.
  - destruct (add_incident_frames_any env incident_id calls s r w Hr Hw)
      as (r' & t & Hrun & Hframes & _ & _ & Hchunks & _).
    eexists _, r', t. split; [exact Hrun|]. split; [apply lookup_insert_eq|].
    split; [done|]. split; [done|]. split; [|done].
    apply (f_equal length) in Hframes. rewrite length_app, !length_map in Hframes. done.
  - destruct (add_incident_audios_any env incident_id calls s r w Hr Hw)
      as (r' & t & Hrun & Hchunks & _ & _ & Hframes & _).
    eexists _, r', t. split; [exact Hrun|]. split; [apply lookup_insert_eq|].
    split; [done|]. split; [done|]. split; [|done].
    apply (f_equal length) in Hchunks. rewrite length_app, !length_map in Hchunks. done.
Qed.

Lemma stored_samples_are_the_accepted_ones_witness :
  ∃ s' r' t,
    add_incident_frames (write_fails_on [2]) "inc1" [(11, [1]); (12, [2]); (13, [3])]
      recording_state = (Ok tt, s')
    ∧ incident_recordings s' !! "inc1" = Some r'
    ∧ io_trace s' = io_trace recording_state ++ t
    ∧ map frame (video_frames r') = video_sink (video_handle bm0 "inc1") t
    ∧ length (video_frames r') = length (video_sink (video_handle bm0 "inc1") t).
Proof.
  destruct (stored_samples_are_the_accepted_ones recording_state (write_fails_on [2])
              "inc1" [(11, [1]); (12, [2]); (13, [3])]
              (Recording "fight" 10 [] [] "backend/data/recordings/inc1"
                 (Some (video_handle bm0 "inc1")) (Some (audio_handle bm0 "inc1"))))
    as [Hvideo _].
  - vm_compute. reflexivity.
  - destruct (Hvideo (video_handle bm0 "inc1") eq_refl)
      as (s' & r' & t & Hrun & Hr' & Ht & Hframes & Hlen & _).
    exists s', r', t. split; [exact Hrun|]. split; [exact Hr'|]. split; [exact Ht|].
    split; [exact Hframes | exact Hlen].
Defined.

(** X7. A stop that failed because [release] raised can be repeated: the
    entry is still there with its counts, a second stop whose external
    calls succeed returns the metadata and removes the entry, and over the
    two stops [release] was called twice on the video writer. *)
Theorem failed_stop_can_be_repeated s env now incident_id r v env' now' :
  incident_recordings s !! incident_id = Some r →
  video_writer r = Some v →
  env (VideoWriter_release v) = true →
  no_failure env' →
  ∃ s1 s2 t,
    stop_incident_recording env now incident_id s = (Ok None, s1)
    ∧ incident_recordings s1 !! incident_id = Some r
    ∧ stop_incident_recording env' now' incident_id s1
      = (Ok (Some (metadata_of incident_id r now')), s2)
    ∧ incident_recordings s2 !! incident_id = None
    ∧ io_trace s2 = io_trace s ++ t
    ∧ release_calls v t = 2%nat
    ∧ metadata_written t = [(metadata_path r incident_id, metadata_of incident_id r now')].
Proof.
  intros Hr Hv Hfail Hquiet. eexists _, _, _.
  split; [by eapply stop_release_fails|]. split; [done|].
  split; [eapply stop_ok; [done|by intros|by intros|done]|].
  split; [apply lookup_delete_eq|].
  simpl. split; [by rewrite <- !app_assoc|].
  unfold release_calls, metadata_written, stop_events, release_events, close_events.
  rewrite Hv. destruct (audio_writer r); simpl; by rewrite !decide_True.
Qed.

Lemma failed_stop_can_be_repeated_witness :
  ∃ s1 s2 md,
    stop_incident_recording release_fails 20 "inc1" recording_state = (Ok None, s1)
    ∧ stop_incident_recording quiet 25 "inc1" s1 = (Ok (Some md), s2)
    ∧ md_duration md = 15.
Proof.
  destruct (failed_stop_can_be_repeated recording_state release_fails 20 "inc1"
              (Recording "fight" 10 [] [] "backend/data/recordings/inc1"
                 (Some (video_handle bm0 "inc1")) (Some (audio_handle bm0 "inc1")))
              (video_handle bm0 "inc1") quiet 25)
    as (s1 & s2 & t & Hfirst & _ & Hsecond & _).
  - vm_compute. reflexivity.
  - reflexivity.
  - reflexivity.
  - intros op. reflexivity.
  - eexists s1, s2, _. split; [exact Hfirst|]. split; [exact Hsecond|]. reflexivity.
Defined.

(** ** Manager status *)

Lemma get_status_run s :
  get_status s
  = (Ok (ManagerStatus (is_running s) (length (items (video_buffer s)))
           (length (items (audio_buffer s))) (size (incident_recordings s))
           (fdiv (length (items (video_buffer s))) 30)
           (fdiv (length (items (audio_buffer s))) 160) (output_dir s)), s).
Proof. reflexivity. Qed.

(** X8. The number of active recordings that [get_status] reports goes up
    by one with every start that returns [True], goes down by one with
    every stop that returns metadata, and is unchanged by a start that is
    rejected because the id has an entry. *)
Theorem status_counts_active_recordings s env now incident_id incident_type st :
  get_status s = (Ok st, s) →
  (∀ s1 st1, start_incident_recording env now incident_id incident_type s = (Ok true, s1) →
             get_status s1 = (Ok st1, s1) →
             ms_active_recordings st1 = S (ms_active_recordings st))
  ∧ (∀ md s1 st1, stop_incident_recording env now incident_id s = (Ok (Some md), s1) →
                  get_status s1 = (Ok st1, s1) →
                  S (ms_active_recordings st1) = ms_active_recordings st)
  ∧ (∀ r s1 st1, incident_recordings s !! incident_id = Some r →
                 start_incident_recording env now incident_id incident_type s
                 = (Ok false, s1) →
                 get_status s1 = (Ok st1, s1) →
                 ms_active_recordings st1 = ms_active_recordings st).
Proof.
  rewrite get_status_run. intros [= <-]. simpl.
  split; [|split].
  - intros s1 st1 [Hnone ->]%start_true_inv. rewrite get_status_run. intros [= <-]. simpl.
    by rewrite map_size_insert_None.
  - intros md s1 st1 (r & Hr & _ & ->)%stop_some_inv. rewrite get_status_run.
    intros [= <-]. simpl. rewrite map_size_delete, Hr.
    assert (size (incident_recordings s) ≠ 0%nat)
      by (apply (map_size_ne_0_lookup_2 _ incident_id); eauto).
    lia.
  - intros r s1 st1 Hr Hstart.
    rewrite (start_already_active _ _ _ _ _ r) in Hstart by done.
    injection Hstart as <-. rewrite get_status_run. by intros [= <-].
Qed.

Lemma status_counts_active_recordings_witness :
  ∃ st0 st1,
    get_status bm0 = (Ok st0, bm0)
    ∧ get_status recording_state = (Ok st1, recording_state)
    ∧ ms_active_recordings st1 = S (ms_active_recordings st0).
Proof.
  destruct (status_counts_active_recordings bm0 quiet 10 "inc1" "fight" _
              (get_status_run bm0)) as [Hup _].
  eexists _, _. split; [apply get_status_run|]. split; [apply get_status_run|].
  apply (Hup recording_state); [vm_compute; reflexivity | apply get_status_run].
Defined.

(** ** Bounds kept by every call *)

Lemma within_bounds_ext vcap acap qcap s s' :
  video_buffer s' = video_buffer s → audio_buffer s' = audio_buffer s →
  video_queue s' = video_queue s → audio_queue s' = audio_queue s →
  within_bounds vcap acap qcap s → within_bounds vcap acap qcap s'.
Proof. unfold within_bounds. by intros -> -> -> ->. Qed.

Lemma touches_only_within_bounds {A} vcap acap qcap incident_id (m : M A) s :
  touches_only incident_id m s →
  within_bounds vcap acap qcap s → within_bounds vcap acap qcap (run m s).
Proof.
  intros (a & regs' & t & Hm & _). unfold run. rewrite Hm. simpl.
  by apply within_bounds_ext.
Qed.

Lemma stop_all_touches env now incident_ids s :
  ∃ regs' t,
    stop_all env now incident_ids s
    = (Ok tt, set_io_trace (io_trace s ++ t) (set_incident_recordings regs' s)).
Proof.
  revert s. induction incident_ids as [|incident_id rest IH]; intros s.
  - exists (incident_recordings s), []. simpl. unfold_monad.
    by rewrite set_incident_recordings_same, set_io_trace_nil.
  - simpl. unfold mbind, M_bind.
    destruct (stop_touches_only s env now incident_id) as (a & regs1 & t1 & -> & _).
    destruct (IH (set_io_trace (io_trace s ++ t1) (set_incident_recordings regs1 s)))
      as (regs2 & t2 & ->).
    exists regs2, (t1 ++ t2). unfold set_io_trace, set_incident_recordings. simpl.
    by rewrite <- app_assoc.
Qed.

Lemma queue_step_bounded {A} (q q' : Queue A) (x : A) (qcap : Z) :
  0 < qcap → maxsize q = qcap → qsize q ≤ qcap →
  maxsize q' = maxsize q →
  (¬ (0 < maxsize q ≤ qsize q) → queue q' = queue q ++ [x]) →
  (0 < maxsize q → qsize q = maxsize q → queue q' = tail (queue q) ++ [x]) →
  qsize q' ≤ qcap.
Proof.
  intros Hpos Hmax Hsize Hmax' Hroom Hfull. unfold qsize in *.
  destruct (decide (Z.of_nat (length (queue q)) = maxsize q)) as [Heq|Hne].
  - rewrite (Hfull ltac:(lia) Heq), length_app. simpl.
    destruct (queue q); simpl in *; lia.
  - rewrite (Hroom ltac:(lia)), length_app. simpl. lia.
Qed.

Lemma add_video_frame_within_bounds vcap acap qcap s now image timestamp :
  0 < qcap →
  within_bounds vcap acap qcap s →
  within_bounds vcap acap qcap (run (add_video_frame now image timestamp) s).
Proof.
  intros Hpos (Hv & Ha & Hvq & Haq & Hvl & Hal & Hvs & Has).
  destruct (add_video_frame_run s now image timestamp) as (q' & Hrun & Hmax & Hroom & Hfull).
  unfold run. rewrite Hrun. simpl. unfold within_bounds. simpl.
  repeat split; try done; [congruence|]. by eapply queue_step_bounded.
Qed.

Lemma add_audio_chunk_within_bounds vcap acap qcap s now data timestamp :
  0 < qcap →
  within_bounds vcap acap qcap s →
  within_bounds vcap acap qcap (run (add_audio_chunk now data timestamp) s).
Proof.
  intros Hpos (Hv & Ha & Hvq & Haq & Hvl & Hal & Hvs & Has).
  destruct (add_audio_chunk_run s now data timestamp) as (q' & Hrun & Hmax & Hroom & Hfull).
  unfold run. rewrite Hrun. simpl. unfold within_bounds. simpl.
  repeat split; try done; [congruence|]. by eapply queue_step_bounded.
Qed.

Lemma process_video_buffer_within_bounds vcap acap qcap passes s :
  within_bounds vcap acap qcap s →
  within_bounds vcap acap qcap (run (process_video_buffer passes) s).
Proof.
  revert s. induction passes as [|passes IH]; intros s Hs; [done|].
  unfold run. simpl. unfold mbind, M_bind, gets.
  destruct (is_running s); [|done].
  destruct (queue (video_queue s)) as [|fd rest] eqn:Hq.
  - rewrite process_video_buffer_body_idle by done. by apply IH.
  - rewrite (process_video_buffer_body_step s fd rest) by done. apply IH.
    destruct Hs as (Hv & Ha & Hvq & Haq & Hvl & Hal & Hvs & Has).
    unfold within_bounds. simpl. repeat split; try done.
    + rewrite <- Hv. apply deque_append_bounded. by rewrite Hv.
    + unfold qsize in *. rewrite Hq in Hvs. simpl in *. lia.
Qed.

Lemma process_audio_buffer_within_bounds vcap acap qcap passes s :
  within_bounds vcap acap qcap s →
  within_bounds vcap acap qcap (run (process_audio_buffer passes) s).
Proof.
  revert s. induction passes as [|passes IH]; intros s Hs; [done|].
  unfold run. simpl. unfold mbind, M_bind, gets.
  destruct (is_running s); [|done].
  destruct (queue (audio_queue s)) as [|cd rest] eqn:Hq.
  - rewrite process_audio_buffer_body_idle by done. by apply IH.
  - rewrite (process_audio_buffer_body_step s cd rest) by done. apply IH.
    destruct Hs as (Hv & Ha & Hvq & Haq & Hvl & Hal & Hvs & Has).
    unfold within_bounds. simpl. repeat split; try done.
    + rewrite <- Ha. apply deque_append_bounded. by rewrite Ha.
    + unfold qsize in *. rewrite Hq in Has. simpl in *. lia.
Qed.

Lemma exec_within_bounds vcap acap qcap c s :
  0 < qcap →
  within_bounds vcap acap qcap s → within_bounds vcap acap qcap (exec c s).
Proof.
  intros Hpos Hs. destruct c; simpl.
  - by apply (within_bounds_ext _ _ _ s).
  - unfold run, stop. unfold_monad. simpl.
    destruct (stop_all_touches env now (map fst (map_to_list (incident_recordings s)))
                (set_is_running false s)) as (regs' & t & ->).
    by apply (within_bounds_ext _ _ _ s).
  - by apply add_video_frame_within_bounds.
  - by apply add_audio_chunk_within_bounds.
  - by apply process_video_buffer_within_bounds.
  - by apply process_audio_buffer_within_bounds.
  - unfold run. by rewrite get_video_buffer_run.
  - unfold run. by rewrite get_audio_buffer_run.
  - eapply touches_only_within_bounds; [apply start_touches_only|done].
  - eapply touches_only_within_bounds; [apply add_incident_frame_touches_only|done].
  - eapply touches_only_within_bounds; [apply add_incident_audio_touches_only|done].
  - eapply touches_only_within_bounds; [apply stop_touches_only|done].
  - unfold run, get_incident_recording_status. unfold_monad. simpl.
    by destruct (incident_recordings s !! incident_id).
  - done.
Qed.

(** X9. In every state that a constructed manager reaches by any sequence
    of calls of its methods and passes of its writer threads, each ring
    buffer holds at most its capacity (the configured seconds times 30,
    resp. 160), each queue holds at most 100 samples, the capacities are
    the ones fixed at construction, and [get_status] reports buffer sizes
    within the capacities. *)
Theorem sizes_stay_within_capacity env here config bm calls :
  __init__ env here config = Ok bm →
  let s := foldl (λ s c, exec c s) bm calls in
  within_bounds (Z.to_nat (video_buffer_size bm * 30))
    (Z.to_nat (audio_buffer_size bm * 160)) 100 s
  ∧ ∃ st, get_status s = (Ok st, s)
      ∧ (ms_video_buffer_size st ≤ Z.to_nat (video_buffer_size bm * 30))%nat
      ∧ (ms_audio_buffer_size st ≤ Z.to_nat (audio_buffer_size bm * 160))%nat.
Proof.
  intros Hinit.
  assert (within_bounds (Z.to_nat (video_buffer_size bm * 30))
            (Z.to_nat (audio_buffer_size bm * 160)) 100 bm) as Hbm.
  { destruct (init_buffers _ _ _ _ Hinit) as (Hv & Ha & Hvs & Has & _ & _).
    unfold within_bounds. rewrite Hv, Ha, Hvs, Has. simpl.
    unfold __init__ in Hinit.
    destruct (deque_new _); [|done]. destruct (deque_new _); [|done].
    destruct (env _); [done|]. injection Hinit as <-. simpl.
    repeat split; try done; lia. }
  clear Hinit. revert Hbm.
  generalize (Z.to_nat (video_buffer_size bm * 30)) (Z.to_nat (audio_buffer_size bm * 160)).
  intros vcap acap. revert bm.
  induction calls as [|c calls IH]; intros bm Hbm; simpl.
  - split; [done|]. eexists. split; [apply get_status_run|]. simpl.
    by destruct Hbm as (_ & _ & _ & _ & ? & ? & _).
  - apply IH. by apply exec_within_bounds.
Qed.

(** ** Sequences of pushes *)

Lemma add_video_frame_as_deque s now image timestamp :
  0 < maxsize (video_queue s) →
  qsize (video_queue s) ≤ maxsize (video_queue s) →
  run (add_video_frame now image timestamp) s
  = set_video_queue
      (MkQueue (maxsize (video_queue s))
         (items (deque_append (Deque (Z.to_nat (maxsize (video_queue s)))
                                 (queue (video_queue s)))
                   (FrameData (copy image) (default now timestamp))))) s.
Proof.
  intros Hpos Hsize.
  destruct (add_video_frame_run s now image timestamp) as (q' & Hrun & Hmax & Hroom & Hfull).
  unfold run. rewrite Hrun. simpl. f_equal.
  destruct q' as [m' l']. simpl in *. subst m'. f_equal.
  unfold deque_append. simpl. unfold qsize in *.
  destruct (decide (Z.of_nat (length (queue (video_queue s))) = maxsize (video_queue s)))
    as [Heq|Hne].
  - rewrite (Hfull Hpos Heq).
    rewrite bool_decide_true by (rewrite length_app; simpl; lia).
    destruct (queue (video_queue s)); simpl in *; [lia|done].
  - rewrite (Hroom ltac:(lia)).
    rewrite bool_decide_false by (rewrite length_app; simpl; lia). done.
Qed.

Lemma add_video_frames_as_deque pushes s :
  0 < maxsize (video_queue s) →
  qsize (video_queue s) ≤ maxsize (video_queue s) →
  add_video_frames pushes s
  = set_video_queue
      (MkQueue (maxsize (video_queue s))
         (items (foldl deque_append
                   (Deque (Z.to_nat (maxsize (video_queue s))) (queue (video_queue s)))
                   (map (λ p, FrameData (copy p.2) p.1) pushes)))) s.
Proof.
  revert s. induction pushes as [|[now image] pushes IH]; intros s Hpos Hsize.
  - simpl. by destruct s as [? ? ? ? ? ? ? ? ? [] ? ? ?].
  - unfold add_video_frames in *. simpl.
    rewrite add_video_frame_as_deque by done.
    rewrite IH; simpl; [done|done|].
    pose proof (deque_append_bounded
                  (Deque (Z.to_nat (maxsize (video_queue s))) (queue (video_queue s)))
                  (FrameData (copy image) now)) as Hb.
    simpl in Hb. unfold qsize in *. simpl. lia.
Qed.

Lemma add_audio_chunk_as_deque s now image timestamp :
  0 < maxsize (audio_queue s) →
  qsize (audio_queue s) ≤ maxsize (audio_queue s) →
  run (add_audio_chunk now image timestamp) s
  = set_audio_queue
      (MkQueue (maxsize (audio_queue s))
         (items (deque_append (Deque (Z.to_nat (maxsize (audio_queue s)))
                                 (queue (audio_queue s)))
                   (ChunkData (copy image) (default now timestamp))))) s.
Proof.
  intros Hpos Hsize.
  destruct (add_audio_chunk_run s now image timestamp) as (q' & Hrun & Hmax & Hroom & Hfull).
  unfold run. rewrite Hrun. simpl. f_equal.
  destruct q' as [m' l']. simpl in *. subst m'. f_equal.
  unfold deque_append. simpl. unfold qsize in *.
  destruct (decide (Z.of_nat (length (queue (audio_queue s))) = maxsize (audio_queue s)))
    as [Heq|Hne].
  - rewrite (Hfull Hpos Heq).
    rewrite bool_decide_true by (rewrite length_app; simpl; lia).
    destruct (queue (audio_queue s)); simpl in *; [lia|done].
  - rewrite (Hroom ltac:(lia)).
    rewrite bool_decide_false by (rewrite length_app; simpl; lia). done.
Qed.

Lemma add_audio_chunks_as_deque pushes s :
  0 < maxsize (audio_queue s) →
  qsize (audio_queue s) ≤ maxsize (audio_queue s) →
  add_audio_chunks pushes s
  = set_audio_queue
      (MkQueue (maxsize (audio_queue s))
         (items (foldl deque_append
                   (Deque (Z.to_nat (maxsize (audio_queue s))) (queue (audio_queue s)))
                   (map (λ p, ChunkData (copy p.2) p.1) pushes)))) s.
Proof.
  revert s. induction pushes as [|[now image] pushes IH]; intros s Hpos Hsize.
  - simpl. by destruct s as [? ? ? ? ? ? ? ? ? ? [] ? ?].
  - unfold add_audio_chunks in *. simpl.
    rewrite add_audio_chunk_as_deque by done.
    rewrite IH; simpl; [done|done|].
    pose proof (deque_append_bounded
                  (Deque (Z.to_nat (maxsize (audio_queue s))) (queue (audio_queue s)))
                  (ChunkData (copy image) now)) as Hb.
    simpl in Hb. unfold qsize in *. simpl. lia.
Qed.

Lemma add_video_frames_queue s pushes :
  0 < maxsize (video_queue s) →
  qsize (video_queue s) ≤ maxsize (video_queue s) →
  add_video_frames pushes s
  = set_video_queue
      (MkQueue (maxsize (video_queue s))
         (drop (length (queue (video_queue s)
                        ++ map (λ p, FrameData (copy p.2) p.1) pushes)
                - Z.to_nat (maxsize (video_queue s)))
            (queue (video_queue s) ++ map (λ p, FrameData (copy p.2) p.1) pushes))) s.
Proof.
  intros Hpos Hsize. rewrite add_video_frames_as_deque by done.
  rewrite foldl_deque_append_items; [done|]. unfold qsize in *. simpl. lia.
Qed.

(** X10. While the writer thread does not run, the ingest queues keep the
    newest samples: after any sequence of pushes onto a queue that was
    within its size, the queue holds the last [maxsize] of the samples that
    were queued or pushed, oldest first, and the pushes change nothing
    else. *)
Theorem queue_keeps_newest_pushes s pushes :
  (0 < maxsize (video_queue s) →
   qsize (video_queue s) ≤ maxsize (video_queue s) →
   let all := queue (video_queue s) ++ map (λ p, FrameData (copy p.2) p.1) pushes in
   add_video_frames pushes s
   = set_video_queue
       (MkQueue (maxsize (video_queue s))
          (drop (length all - Z.to_nat (maxsize (video_queue s))) all)) s)
  ∧ (0 < maxsize (audio_queue s) →
     qsize (audio_queue s) ≤ maxsize (audio_queue s) →
     let all := queue (audio_queue s) ++ map (λ p, ChunkData (copy p.2) p.1) pushes in
     add_audio_chunks pushes s
     = set_audio_queue
         (MkQueue (maxsize (audio_queue s))
            (drop (length all - Z.to_nat (maxsize (audio_queue s))) all)) s).
Proof.
  split; intros Hpos Hsize all.
  - rewrite add_video_frames_as_deque by done.
    rewrite foldl_deque_append_items; [done|]. unfold qsize in *. simpl. lia.
  - rewrite add_audio_chunks_as_deque by done.
    rewrite foldl_deque_append_items; [done|]. unfold qsize in *. simpl. lia.
Qed.

Lemma queue_keeps_newest_pushes_witness :
  queue (video_queue (add_video_frames [(100, [1]); (101, [2])] full_queue_state))
  = drop 2 (queue (video_queue full_queue_state))
    ++ [FrameData [1] 100; FrameData [2] 101].
Proof.
  destruct (queue_keeps_newest_pushes full_queue_state [(100, [1]); (101, [2])])
    as [Hvideo _].
  rewrite Hvideo.
  - vm_compute. reflexivity.
  - vm_compute. reflexivity.
  - vm_compute. discriminate.
Defined.

(** X11. Nothing is lost or reordered on the way from capture to the ring
    buffer when the writer keeps up: frames pushed onto an empty queue, no
    more than the queue can hold, and then taken by the running writer
    thread are appended to the ring buffer in the order of the pushes, and
    the queue is empty again. *)
Theorem pushes_reach_buffer_in_order s pushes :
  is_running s = true →
  queue (video_queue s) = [] →
  Z.of_nat (length pushes) ≤ maxsize (video_queue s) →
  let s1 := add_video_frames pushes s in
  let frames := map (λ p, FrameData (copy p.2) p.1) pushes in
  queue (video_queue s1) = frames
  ∧ video_buffer s1 = video_buffer s
  ∧ ∃ s2,
      process_video_buffer (length pushes) s1 = (Ok tt, s2)
      ∧ video_buffer s2 = foldl deque_append (video_buffer s) frames
      ∧ queue (video_queue s2) = [].
Proof.
  intros Hrun Hempty Hroom s1 frames.
  destruct pushes as [|p pushes].
  { subst s1 frames. simpl. split; [done|]. split; [done|].
    eexists. split; [done|]. done. }
  assert (0 < maxsize (video_queue s)) as Hpos by (simpl in Hroom; lia).
  assert (s1 = set_video_queue (MkQueue (maxsize (video_queue s)) frames) s) as Hs1.
  { subst s1.
    rewrite add_video_frames_queue; [|done|unfold qsize; rewrite Hempty; simpl; lia].
    rewrite Hempty, app_nil_l. fold frames.
    replace (length frames - Z.to_nat (maxsize (video_queue s)))%nat with 0%nat; [done|].
    unfold frames. rewrite length_map. lia. }
  rewrite Hs1. split; [done|]. split; [done|].
  replace (length (p :: pushes)) with (length frames)
    by (unfold frames; by rewrite length_map).
  eexists. split; [by apply process_video_buffer_drains|]. done.
Qed.

Lemma pushes_reach_buffer_in_order_witness :
  ∃ s2,
    process_video_buffer 2 (add_video_frames [(7, [1]); (8, [2])] (run start bm0))
    = (Ok tt, s2)
    ∧ items (video_buffer s2) = [FrameData [1] 7; FrameData [2] 8].
Proof.
  destruct (pushes_reach_buffer_in_order (run start bm0) [(7, [1]); (8, [2])])
    as (_ & _ & s2 & Hpasses & Hbuf & _).
  - reflexivity.
  - reflexivity.
  - vm_compute. discriminate.
  - exists s2. split; [exact Hpasses|]. rewrite Hbuf. reflexivity.
Defined.



(** ** More on windowed reads *)

Lemma filter_sublist_weaker {A} (P Q : A → Prop)
    `{!∀ x, Decision (P x)} `{!∀ x, Decision (Q x)} (l : list A) :
  (∀ x, P x → Q x) → filter P l `sublist_of` filter Q l.
Proof.
  intros HPQ. induction l as [|x l IH]; [done|].
  rewrite !filter_cons. destruct (decide (P x)) as [HP|HP].
  - rewrite decide_True by auto. by constructor.
  - destruct (decide (Q x)); [by constructor|done].
Qed.

Lemma filter_all {A} (P : A → Prop) `{!∀ x, Decision (P x)} (l : list A) :
  (∀ x, x ∈ l → P x) → filter P l = l.
Proof.
  induction l as [|x l IH]; intros Hall; [done|].
  rewrite filter_cons, decide_True by (apply Hall; left).
  f_equal. apply IH. intros y Hy. apply Hall. by right.
Qed.

(** X13. A windowed read with a longer duration returns everything a read
    with a shorter duration at the same time returns, in the same relative
    order, and a read whose cut-off no retained time stamp lies before
    returns the whole buffer content. *)
Theorem window_grows_with_duration s now d1 d2 :
  d1 ≤ d2 →
  ∃ frames1 frames2 chunks1 chunks2,
    get_video_buffer now (Some d1) s = (Ok frames1, s)
    ∧ get_video_buffer now (Some d2) s = (Ok frames2, s)
    ∧ get_audio_buffer now (Some d1) s = (Ok chunks1, s)
    ∧ get_audio_buffer now (Some d2) s = (Ok chunks2, s)
    ∧ frames1 `sublist_of` frames2
    ∧ chunks1 `sublist_of` chunks2
    ∧ ((∀ fd, fd ∈ items (video_buffer s) → now - d2 ≤ frame_timestamp fd) →
       frames2 = items (video_buffer s))
    ∧ ((∀ cd, cd ∈ items (audio_buffer s) → now - d2 ≤ chunk_timestamp cd) →
       chunks2 = items (audio_buffer s)).
Proof.
  intros Hle. eexists _, _, _, _.
  split; [apply get_video_buffer_run|]. split; [apply get_video_buffer_run|].
  split; [apply get_audio_buffer_run|]. split; [apply get_audio_buffer_run|].
  simpl.
  split; [apply filter_sublist_weaker; intros; lia|].
  split; [apply filter_sublist_weaker; intros; lia|].
  split; intros Hall; by apply filter_all.
Qed.

Lemma window_grows_with_duration_witness :
  ∃ frames1 frames2,
    get_video_buffer 10 (Some 6) out_of_order_state = (Ok frames1, out_of_order_state)
    ∧ get_video_buffer 10 (Some 8) out_of_order_state = (Ok frames2, out_of_order_state)
    ∧ frames1 `sublist_of` frames2
    ∧ frames2 = items (video_buffer out_of_order_state).
Proof.
  destruct (window_grows_with_duration out_of_order_state 10 6 8)
    as (frames1 & frames2 & _ & _ & H1 & H2 & _ & _ & Hsub & _ & Hall & _); [lia|].
  exists frames1, frames2. split; [exact H1|]. split; [exact H2|]. split; [exact Hsub|].
  apply Hall. intros fd Hfd.
  assert (items (video_buffer out_of_order_state) = [FrameData [] 5; FrameData [] 3])
    as Hitems by (vm_compute; reflexivity).
  rewrite Hitems in Hfd.
  apply elem_of_cons in Hfd as [->|Hfd]; [simpl; lia|].
  apply elem_of_cons in Hfd as [->|Hfd]; [simpl; lia|].
  by apply elem_of_nil in Hfd.
Defined.

(** ** Construction *)

Lemma init_within_bounds env here config bm :
  __init__ env here config = Ok bm →
  within_bounds (Z.to_nat (video_buffer_size bm * 30))
    (Z.to_nat (audio_buffer_size bm * 160)) 100 bm.
Proof.
  intros Hinit.
  destruct (init_buffers _ _ _ _ Hinit) as (Hv & Ha & Hvs & Has & _ & _).
  unfold within_bounds. rewrite Hv, Ha, Hvs, Has. simpl.
  unfold __init__ in Hinit.
  destruct (deque_new _); [|done]. destruct (deque_new _); [|done].
  destruct (env _); [done|]. injection Hinit as <-. simpl.
  repeat split; try done; lia.
Qed.

Lemma foldl_exec_within_bounds vcap acap calls s :
  within_bounds vcap acap 100 s →
  within_bounds vcap acap 100 (foldl (λ s c, exec c s) s calls).
Proof.
  revert s. induction calls as [|c calls IH]; intros s Hs; [done|].
  simpl. apply IH. by apply exec_within_bounds.
Qed.

(** X14. A manager configured with a buffer size of 0 seconds never
    retains a sample: in every state it reaches, the ring buffer of that
    modality is empty and the windowed read returns the empty list. *)
Theorem zero_size_buffer_stays_empty env here config bm calls now duration :
  __init__ env here config = Ok bm →
  let s := foldl (λ s c, exec c s) bm calls in
  (video_buffer_size bm = 0 →
   items (video_buffer s) = [] ∧ get_video_buffer now duration s = (Ok [], s))
  ∧ (audio_buffer_size bm = 0 →
     items (audio_buffer s) = [] ∧ get_audio_buffer now duration s = (Ok [], s)).
Proof.
  intros Hinit s.
  pose proof (foldl_exec_within_bounds _ _ calls bm (init_within_bounds _ _ _ _ Hinit))
    as (_ & _ & _ & _ & Hvl & Hal & _).
  fold s in Hvl, Hal. split; intros Hzero; rewrite Hzero in *; simpl in *.
  - assert (items (video_buffer s) = []) as Hnil
      by (destruct (items (video_buffer s)); [done|simpl in Hvl; lia]).
    split; [done|]. by rewrite get_video_buffer_run, Hnil.
  - assert (items (audio_buffer s) = []) as Hnil
      by (destruct (items (audio_buffer s)); [done|simpl in Hal; lia]).
    split; [done|]. by rewrite get_audio_buffer_run, Hnil.
Qed.



Lemma sizes_stay_within_capacity_witness :
  within_bounds 900 1600 100
    (foldl (λ s c, exec c s) bm0
       [call_start; call_add_video_frame 1 [1] None; call_process_video_buffer 3;
        call_start_incident_recording quiet 2 "inc1" "fight"; call_stop quiet 3]).
Proof.
  assert (__init__ quiet "backend" ∅ = Ok bm0) as Hinit by (vm_compute; reflexivity).
  destruct (sizes_stay_within_capacity quiet "backend" ∅ bm0
              [call_start; call_add_video_frame 1 [1] None; call_process_video_buffer 3;
               call_start_incident_recording quiet 2 "inc1" "fight"; call_stop quiet 3]
              Hinit) as [Hbounds _].
  exact Hbounds.
Defined.

Lemma zero_size_buffer_stays_empty_witness :
  ∃ bm,
    __init__ quiet "backend" {[ "video_buffer_size" := 0 ]} = Ok bm
    ∧ items (video_buffer
               (foldl (λ s c, exec c s) bm
                  [call_start; call_add_video_frame 1 [1] None;
                   call_process_video_buffer 1])) = [].
Proof.
  assert (∃ bm, __init__ quiet "backend" {[ "video_buffer_size" := 0 ]} = Ok bm
                ∧ video_buffer_size bm = 0)
    as (bm & Hinit & Hzero) by (eexists; vm_compute; done).
  destruct (zero_size_buffer_stays_empty quiet "backend" {[ "video_buffer_size" := 0 ]} bm
              [call_start; call_add_video_frame 1 [1] None; call_process_video_buffer 1]
              0 None Hinit) as [Hvideo _].
  exists bm. split; [exact Hinit|]. by destruct (Hvideo Hzero).
Defined.

(** ** Stop of the manager *)

Lemma lookup_foldl_delete (incident_ids : list string) (m : gmap string recording) i :
  foldl (λ m i, delete i m) m incident_ids !! i
  = if decide (i ∈ incident_ids) then None else m !! i.
Proof.
  revert m. induction incident_ids as [|j rest IH]; intros m.
  - destruct (decide (i ∈ [])) as [Hin|]; [by apply elem_of_nil in Hin|done].
  - change (foldl (λ m i, delete i m) m (j :: rest))
      with (foldl (λ m i, delete i m) (delete j m) rest).
    rewrite IH.
    destruct (decide (i ∈ rest)) as [Hin|Hnin], (decide (i ∈ j :: rest)) as [Hin'|Hnin'];
      try done.
    + exfalso. apply Hnin'. by right.
    + apply elem_of_cons in Hin' as [->|?]; [apply lookup_delete_eq|done].
    + apply lookup_delete_ne. intros ->. apply Hnin'. by left.
Qed.

Lemma metadata_written_app t1 t2 :
  metadata_written (t1 ++ t2) = metadata_written t1 ++ metadata_written t2.
Proof. apply omap_app. Qed.

Lemma stop_all_quiet env now incident_ids s :
  no_failure env →
  ∃ t,
    stop_all env now incident_ids s
    = (Ok tt, set_io_trace (io_trace s ++ t)
                (set_incident_recordings
                   (foldl (λ m i, delete i m) (incident_recordings s) incident_ids) s))
    ∧ ∀ incident_id r,
        incident_id ∈ incident_ids →
        incident_recordings s !! incident_id = Some r →
        (metadata_path r incident_id, metadata_of incident_id r now) ∈ metadata_written t.
Proof.
  intros Hquiet. revert s.
  induction incident_ids as [|i rest IH]; intros s.
  - exists []. simpl. unfold_monad.
    rewrite set_incident_recordings_same, set_io_trace_nil. split; [done|].
    intros ? ? Hin. by apply elem_of_nil in Hin.
  - simpl. unfold mbind, M_bind.
    destruct (incident_recordings s !! i) as [ri|] eqn:Hi.
    + rewrite (stop_ok s env now i ri) by (done || by intros).
      destruct (IH (set_io_trace (io_trace s ++ stop_events i ri now)
                      (set_incident_recordings (delete i (incident_recordings s)) s)))
        as (t & -> & Hmeta).
      exists (stop_events i ri now ++ t). split.
      * unfold set_io_trace, set_incident_recordings. simpl. by rewrite <- app_assoc.
      * intros incident_id r Hin Hr. rewrite metadata_written_app, elem_of_app.
        destruct (decide (incident_id = i)) as [->|Hne].
        -- left. rewrite metadata_written_stop_events. rewrite Hi in Hr.
           injection Hr as <-. by left.
        -- right. apply Hmeta.
           ++ apply elem_of_cons in Hin as [?|?]; done.
           ++ simpl. by rewrite lookup_delete_ne.
    + rewrite stop_unknown by done.
      destruct (IH s) as (t & -> & Hmeta).
      exists t. split.
      * by rewrite (delete_id _ _ Hi).
      * intros incident_id r Hin Hr. apply Hmeta; [|done].
        apply elem_of_cons in Hin as [->|?]; [congruence|done].
Qed.

Lemma manager_stop_quiet s env now :
  no_failure env →
  ∃ s1, stop env now s = (Ok tt, s1) ∧ is_running s1 = false ∧ incident_recordings s1 = ∅.
Proof.
  intros Hquiet. unfold stop. unfold_monad. simpl.
  destruct (stop_all_quiet env now (map fst (map_to_list (incident_recordings s)))
              (set_is_running false s) Hquiet) as (t & -> & _).
  eexists. split; [done|]. split; [done|]. simpl.
  apply map_eq. intros i. rewrite lookup_foldl_delete, lookup_empty.
  destruct (decide (i ∈ _)) as [|Hnin]; [done|].
  destruct (incident_recordings s !! i) as [r|] eqn:Hi; [|done].
  exfalso. apply Hnin, list_elem_of_fmap.
  exists (i, r). split; [done|]. by apply elem_of_map_to_list.
Qed.



(** X17. A second stop of the manager has nothing left to finalize: after
    a stop in which no external call failed, another stop returns normally,
    makes no external call (no writer is closed and no metadata file is
    written again), and leaves the registry empty and the running flag off.
    (The thread joins and the closing print of [stop] are outside the
    model.) *)
Theorem manager_stop_twice s env now env' now' :
  no_failure env →
  let s1 := run (stop env now) s in
  ∃ s2,
    stop env' now' s1 = (Ok tt, s2)
    ∧ incident_recordings s2 = ∅
    ∧ is_running s2 = false
    ∧ (∀ op raised, Call op raised ∈ io_trace s2 → Call op raised ∈ io_trace s1)
    ∧ metadata_written (io_trace s2) = metadata_written (io_trace s1).
Proof.
  intros Hquiet s1. subst s1.
  destruct (manager_stop_quiet s env now Hquiet) as (s1 & Hstop & Hflag & Hregs).
  unfold run. rewrite Hstop. simpl.
  exists s1. split; [|done].
  unfold stop. unfold_monad. simpl. rewrite Hregs, map_to_list_empty. simpl.
  destruct s1. simpl in *. by subst.
Qed.

Lemma manager_stop_twice_witness :
  ∃ s2,
    stop quiet 31 (run (stop quiet 30) recording_state) = (Ok tt, s2)
    ∧ incident_recordings s2 = ∅.
Proof.
  destruct (manager_stop_twice recording_state quiet 30 quiet 31)
    as (s2 & Hstop & Hregs & _).
  - intros op. reflexivity.
  - exists s2. split; [exact Hstop | exact Hregs].
Defined.

(** ** Retention sweep *)

Lemma filter_other_names (pre rest : list dir_entry) (e : dir_entry) :
  NoDup (map entry_name (pre ++ e :: rest)) →
  filter (λ x, entry_name x ≠ entry_name e) (pre ++ e :: rest) = pre ++ rest.
Proof.
  rewrite map_app. simpl. intros Hnodup.
  apply NoDup_app in Hnodup as (_ & Hdisj & Hrest).
  apply NoDup_cons in Hrest as [Hnotin _].
  rewrite filter_app, filter_cons, decide_False by (by intros []).
  f_equal.
  - apply filter_all. intros x Hx Heq.
    apply (Hdisj (entry_name x)); [by apply list_elem_of_fmap_2|].
    rewrite Heq. by left.
  - apply filter_all. intros x Hx Heq. apply Hnotin.
    rewrite <- Heq. by apply list_elem_of_fmap_2.
Qed.

Lemma NoDup_names_remove (pre rest : list dir_entry) (e : dir_entry) :
  NoDup (map entry_name (pre ++ e :: rest)) → NoDup (map entry_name (pre ++ rest)).
Proof.
  rewrite !map_app. simpl. intros Hnodup.
  apply NoDup_app in Hnodup as (Hpre & Hdisj & Hrest).
  apply NoDup_cons in Hrest as [_ Hrest].
  apply NoDup_app. split; [done|]. split; [|done].
  intros x Hx Hx'. apply (Hdisj x Hx). by right.
Qed.

Lemma cleanup_sweep_quiet fails current_time max_age_seconds listing pre :
  (∀ op, fails op = false) →
  NoDup (map entry_name (pre ++ listing)) →
  cleanup_sweep fails current_time max_age_seconds listing (pre ++ listing)
  = (pre ++ filter (λ e, ¬ old_directory current_time max_age_seconds e) listing,
     map (λ e, line_cleaned_up (entry_name e))
       (filter (old_directory current_time max_age_seconds) listing)).
Proof.
  intros Hquiet. revert pre.
  induction listing as [|e rest IH]; intros pre Hnodup; [done|].
  rewrite !filter_cons.
  assert (cleanup_sweep fails current_time max_age_seconds rest (pre ++ e :: rest)
          = (pre ++ e :: filter (λ e, ¬ old_directory current_time max_age_seconds e) rest,
             map (λ e, line_cleaned_up (entry_name e))
               (filter (old_directory current_time max_age_seconds) rest))) as Hkeep.
  { rewrite (cons_middle e pre rest), app_assoc in *. rewrite IH by done.
    by rewrite <- !app_assoc. }
  destruct (decide (old_directory current_time max_age_seconds e)) as [[Hdir Hold]|Hnot].
  - rewrite decide_False by (intros Hn; apply Hn; by split).
    simpl. rewrite Hdir, Hquiet, bool_decide_true, Hquiet by done.
    rewrite filter_other_names by done.
    by rewrite IH by by eapply NoDup_names_remove.
  - rewrite decide_True by done. simpl.
    destruct (entry_is_dir e) eqn:Hdir; [|done].
    rewrite Hquiet, bool_decide_false; [done|].
    intros Hold. apply Hnot. by split.
Qed.

Lemma cleanup_quiet fails now max_age_days fs :
  (∀ op, fails op = false) →
  NoDup (map entry_name fs) →
  cleanup_old_recordings fails now max_age_days fs
  = (filter (λ e, ¬ old_directory now (default 30 max_age_days * 24 * 3600) e) fs,
     map (λ e, line_cleaned_up (entry_name e))
       (filter (old_directory now (default 30 max_age_days * 24 * 3600)) fs)).
Proof.
  intros Hquiet Hnodup. unfold cleanup_old_recordings. rewrite Hquiet.
  by apply (cleanup_sweep_quiet _ _ _ fs []).
Qed.

(** X18. When no file-system call fails, the retention sweep removes
    exactly the directories whose age exceeds [max_age_days] days (30 when
    not given): what is left of the output directory are the files and the
    directories of that age or younger, in their order, and one line is
    printed for each directory removed. *)
Theorem cleanup_removes_old_directories fails now max_age_days fs :
  (∀ op, fails op = false) →
  NoDup (map entry_name fs) →
  let max_age_seconds := default 30 max_age_days * 24 * 3600 in
  cleanup_old_recordings fails now max_age_days fs
  = (filter (λ e, ¬ old_directory now max_age_seconds e) fs,
     map (λ e, line_cleaned_up (entry_name e))
       (filter (old_directory now max_age_seconds) fs)).
Proof. intros Hquiet Hnodup. by apply cleanup_quiet. Qed.

Lemma cleanup_removes_old_directories_witness :
  cleanup_old_recordings (λ _, false) (41 * 86400) None sample_output_dir
  = ([DirEntry "notes.txt" false 0; DirEntry "inc_new" true (40 * 86400)],
     [line_cleaned_up "inc_old"]).
Proof.
  rewrite (cleanup_removes_old_directories (λ _, false) (41 * 86400) None
             sample_output_dir).
  - vm_compute. reflexivity.
  - reflexivity.
  - apply (bool_decide_unpack _). vm_compute. exact I.
Defined.

Lemma cleanup_sweep_safe fails current_time max_age_seconds listing pre :
  NoDup (map entry_name (pre ++ listing)) →
  ∃ kept out,
    cleanup_sweep fails current_time max_age_seconds listing (pre ++ listing)
    = (pre ++ kept, out)
    ∧ kept `sublist_of` listing
    ∧ ∀ e, e ∈ listing → ¬ old_directory current_time max_age_seconds e → e ∈ kept.
Proof.
  revert pre. induction listing as [|e rest IH]; intros pre Hnodup.
  { exists [], []. done. }
  assert (∃ kept out,
            cleanup_sweep fails current_time max_age_seconds rest (pre ++ e :: rest)
            = (pre ++ kept, out)
            ∧ kept `sublist_of` e :: rest
            ∧ ∀ e', e' ∈ e :: rest →
                    ¬ old_directory current_time max_age_seconds e' → e' ∈ kept) as Hkeep.
  { rewrite (cons_middle e pre rest), app_assoc in *.
    destruct (IH (pre ++ [e]) Hnodup) as (kept & out & -> & Hsub & Hin).
    exists (e :: kept), out. rewrite <- !app_assoc. split; [done|].
    split; [by constructor|].
    intros e' [->|He']%elem_of_cons Hyoung; [by left|]. right. by apply Hin. }
  assert (∀ out : list cleanup_line,
            ∃ kept out',
              (pre ++ e :: rest, out) = (pre ++ kept, out')
              ∧ kept `sublist_of` e :: rest
              ∧ ∀ e', e' ∈ e :: rest →
                      ¬ old_directory current_time max_age_seconds e' → e' ∈ kept) as Hstay.
  { intros out. by exists (e :: rest), out. }
  simpl. destruct (entry_is_dir e) eqn:Hdir; [|exact Hkeep].
  destruct (fails (stat (entry_name e))); [apply Hstay|].
  case_bool_decide as Hold; [|exact Hkeep].
  destruct (fails (rmtree (entry_name e))); [apply Hstay|].
  rewrite filter_other_names by done.
  destruct (IH pre) as (kept & out & -> & Hsub & Hin); [by eapply NoDup_names_remove|].
  exists kept, (line_cleaned_up (entry_name e) :: out). split; [done|].
  split; [by constructor|].
  intros e' [->|He']%elem_of_cons Hyoung; [|by apply Hin].
  exfalso. apply Hyoung. by split.
Qed.

(** X19. Whatever file-system call fails, the retention sweep never
    removes a file or a directory that is not older than the maximal age,
    and never reorders or adds entries: what it leaves is a sub-list of the
    directory content that contains every such entry.  In particular a
    directory whose age is exactly the maximal age stays. *)
Theorem cleanup_keeps_files_and_young_directories fails now max_age_days fs :
  NoDup (map entry_name fs) →
  let max_age_seconds := default 30 max_age_days * 24 * 3600 in
  let left := (cleanup_old_recordings fails now max_age_days fs).1 in
  left `sublist_of` fs
  ∧ (∀ e, e ∈ fs → ¬ old_directory now max_age_seconds e → e ∈ left)
  ∧ (∀ e, e ∈ fs → entry_is_dir e = false → e ∈ left)
  ∧ (∀ e, e ∈ fs → now - entry_st_mtime e = max_age_seconds → e ∈ left).
Proof.
  intros Hnodup max_age_seconds left.
  assert (left `sublist_of` fs
          ∧ ∀ e, e ∈ fs → ¬ old_directory now max_age_seconds e → e ∈ left) as [Hsub Hin].
  { subst left. unfold cleanup_old_recordings. fold max_age_seconds.
    destruct (fails iterdir); [done|].
    destruct (cleanup_sweep_safe fails now max_age_seconds fs [] Hnodup)
      as (kept & out & Hsweep & ? & ?).
    simpl in Hsweep. by rewrite Hsweep. }
  split; [done|]. split; [done|]. split.
  - intros e He Hfile. apply Hin; [done|]. intros [Hdir _]. congruence.
  - intros e He Hage. apply Hin; [done|]. intros [_ Hold]. lia.
Qed.

Lemma cleanup_keeps_files_and_young_directories_witness :
  DirEntry "notes.txt" false 0
  ∈ (cleanup_old_recordings (λ op, match op with rmtree _ => true | _ => false end)
       (41 * 86400) None sample_output_dir).1.
Proof.
  destruct (cleanup_keeps_files_and_young_directories
              (λ op, match op with rmtree _ => true | _ => false end)
              (41 * 86400) None sample_output_dir) as (_ & _ & Hfiles & _).
  - apply (bool_decide_unpack _). vm_compute. exact I.
  - apply Hfiles; [|reflexivity]. right. left.
Defined.

(** X20. A retention sweep in which no file-system call fails leaves
    nothing for a second sweep at the same time with the same maximal age:
    the second sweep removes nothing and prints nothing. *)
Theorem cleanup_twice_is_cleanup_once fails now max_age_days fs :
  (∀ op, fails op = false) →
  NoDup (map entry_name fs) →
  let left := (cleanup_old_recordings fails now max_age_days fs).1 in
  cleanup_old_recordings fails now max_age_days left = (left, []).
Proof.
  intros Hquiet Hnodup left. subst left.
  rewrite (cleanup_quiet fails now max_age_days fs) by done. simpl.
  rewrite cleanup_quiet; [|done|].
  - f_equal.
    + apply filter_all. by intros e [? _]%list_elem_of_filter.
    + rewrite filter_none; [done|]. by intros e [? _]%list_elem_of_filter.
  - eapply sublist_NoDup; [exact Hnodup|].
    apply (fmap_sublist entry_name), sublist_filter.
Qed.

Lemma cleanup_twice_is_cleanup_once_witness :
  cleanup_old_recordings (λ _, false) (41 * 86400) None
    [DirEntry "notes.txt" false 0; DirEntry "inc_new" true (40 * 86400)]
  = ([DirEntry "notes.txt" false 0; DirEntry "inc_new" true (40 * 86400)], []).
Proof.
  apply (cleanup_twice_is_cleanup_once (λ _, false) (41 * 86400) None sample_output_dir).
  - reflexivity.
  - apply (bool_decide_unpack _). vm_compute. exact I.
Defined.

Lemma stop_all_any env now incident_ids s :
  ∃ regs' t,
    stop_all env now incident_ids s
    = (Ok tt, set_io_trace (io_trace s ++ t) (set_incident_recordings regs' s))
    ∧ ∀ incident_id,
        regs' !! incident_id = None
        ∨ regs' !! incident_id = incident_recordings s !! incident_id.
Proof.
  revert s. induction incident_ids as [|i rest IH]; intros s.
  - exists (incident_recordings s), []. simpl. unfold_monad.
    rewrite set_incident_recordings_same, set_io_trace_nil. split; [done|]. by right.
  - simpl. unfold mbind, M_bind.
    assert (∃ a regs1 t1,
              stop_incident_recording env now i s
              = (Ok a, set_io_trace (io_trace s ++ t1) (set_incident_recordings regs1 s))
              ∧ ∀ incident_id,
                  regs1 !! incident_id = None
                  ∨ regs1 !! incident_id = incident_recordings s !! incident_id)
      as (a & regs1 & t1 & -> & Hregs1).
    { destruct (incident_recordings s !! i) as [ri|] eqn:Hi.
      - destruct (stop_cases s env now i ri Hi) as [(t & Hfail & _)|Hok];
          [rewrite Hfail | rewrite Hok].
        + exists None, (incident_recordings s), t.
          rewrite set_incident_recordings_same. split; [done|]. by right.
        + eexists _, _, _. split; [done|].
          intros incident_id. destruct (decide (incident_id = i)) as [->|Hne].
          * left. apply lookup_delete_eq.
          * right. by apply lookup_delete_ne.
      - exists None, (incident_recordings s), []. rewrite stop_unknown by done.
        rewrite set_incident_recordings_same, set_io_trace_nil.
        split; [done|]. by right. }
    destruct (IH (set_io_trace (io_trace s ++ t1) (set_incident_recordings regs1 s)))
      as (regs2 & t2 & -> & Hregs2).
    exists regs2, (t1 ++ t2). split.
    + unfold set_io_trace, set_incident_recordings. simpl. by rewrite <- app_assoc.
    + intros incident_id. simpl in Hregs2.
      destruct (Hregs2 incident_id) as [?|H2]; [by left|].
      rewrite H2. apply Hregs1.
Qed.

(** X21. The stop of the manager returns normally whatever external call
    fails.  It turns the running flag off and leaves the buffers and queues
    alone; every entry of the registry is either removed or, when its
    finalization failed, left exactly as it was.  (Proved for every order
    in which the ids are visited; the thread joins and the closing print
    of [stop] are outside the model.) *)
Theorem manager_stop_never_raises s env now :
  ∃ s1 t,
    stop env now s = (Ok tt, s1)
    ∧ is_running s1 = false
    ∧ video_buffer s1 = video_buffer s ∧ audio_buffer s1 = audio_buffer s
    ∧ video_queue s1 = video_queue s ∧ audio_queue s1 = audio_queue s
    ∧ io_trace s1 = io_trace s ++ t
    ∧ ∀ incident_id,
        incident_recordings s1 !! incident_id = None
        ∨ incident_recordings s1 !! incident_id = incident_recordings s !! incident_id.
Proof.
  unfold stop. unfold_monad. simpl.
  destruct (stop_all_any env now (map fst (map_to_list (incident_recordings s)))
              (set_is_running false s)) as (regs' & t & -> & Hregs).
  eexists _, t. split; [done|]. by repeat (split; [done|]).
Qed.
